(** * FORT validator: validation state, file hashing, RTR notifier

    A shallow embedding of [src/state.c], [src/crypto/hash.c] and
    [src/notify.c], together with the resource-set canonical form that the
    specification describes, and the properties the specification states
    about them.

    Conventions.
    - A C [int] is a [Z]; no function below does arithmetic that could wrap.
    - A function that logs, prints, opens files or sends PDUs returns its
      result together with the list of the events it produced, in order
      (the [io] monad below).
    - Calls into code that is not in these three files (libcrypto, libc,
      [log.c], [file.c], [clients.c], [rtr/db/vrps.c], ...) take their
      outcome from an environment record: one field per call. *)

From Stdlib Require Import ZArith NArith List Bool Lia String.
From Stdlib.Strings Require Import Byte.
From Equations Require Import Equations.
Import ListNotations.
Open Scope Z_scope.

(* ===================================================================== *)
(** ** errno.h and the libcrypto verification codes                       *)
(* ===================================================================== *)

Definition ENOMEM : Z := 12.
Definition EINVAL : Z := 22.
Definition EAGAIN : Z := 11.

(** [X509_V_OK], [X509_V_ERR_CERT_HAS_EXPIRED] and
    [X509_V_ERR_UNHANDLED_CRITICAL_EXTENSION] of <openssl/x509_vfy.h>. *)
Definition X509_V_OK : Z := 0.
Definition X509_V_ERR_CERT_HAS_EXPIRED : Z := 10.
Definition X509_V_ERR_UNHANDLED_CRITICAL_EXTENSION : Z := 34.

(* ===================================================================== *)
(** ** Observable events and the [io] monad                               *)
(* ===================================================================== *)

(** The logging entry points of [log.h] that the three files call. *)
Inductive log_fn : Type :=
| PR_WARN | PR_ERR | PR_ERRNO | PR_CRIT | PR_ENOMEM | CRYPTO_ERR.

Inductive fmt_arg : Type :=
| ArgInt (z : Z)
| ArgStr (s : string).

Inductive event : Type :=
| EvLog (fn : log_fn) (format : string) (args : list fmt_arg)
| EvPrintf (format : string) (args : list fmt_arg)
| EvFileOpen (path : string)
| EvFileClose (path : string)
| EvGetLastSerialNumber
| EvSerialNotify (fd : Z) (rtr_version : Z) (serial : N).

Definition io (A : Type) : Type := (A * list event)%type.

Definition ret {A : Type} (a : A) : io A := (a, []).

Definition bind {A B : Type} (m : io A) (k : A -> io B) : io B :=
  let (a, t1) := m in
  let (b, t2) := k a in
  (b, t1 ++ t2).

Definition emit (e : event) : io unit := (tt, [e]).

Declare Scope io_scope.
Delimit Scope io_scope with io.
Notation "x <- m ;; k" := (bind m (fun x => k))
  (at level 100, m at next level, right associativity) : io_scope.
Notation "m ;;; k" := (bind m (fun _ => k))
  (at level 100, right associativity) : io_scope.
Open Scope io_scope.

Definition result {A : Type} (m : io A) : A := fst m.
Definition events {A : Type} (m : io A) : list event := snd m.

(** [log.c] is not part of the three files. Each of its entry points
    writes one message and hands back an [int] that the callers return as
    their own error code; those values are the fields of [log_api]. *)
Record log_api : Type := {
  pr_err_ret : Z;
  pr_crit_ret : Z;
  crypto_err_ret : Z;
  pr_enomem_ret : Z
}.

(** What every caller relies on: a logging call never reports success. *)
Definition log_api_fails (L : log_api) : Prop :=
  pr_err_ret L <> 0 /\ pr_crit_ret L <> 0 /\
  crypto_err_ret L <> 0 /\ pr_enomem_ret L <> 0.

(** The instance used on concrete inputs: [-EINVAL] from the message
    writers, [-ENOMEM] from [pr_enomem]. *)
Definition fort_log : log_api := {|
  pr_err_ret := - EINVAL;
  pr_crit_ret := - EINVAL;
  crypto_err_ret := - EINVAL;
  pr_enomem_ret := - ENOMEM
|}.

Definition pr_warn (format : string) (args : list fmt_arg) : io unit :=
  emit (EvLog PR_WARN format args).

Definition pr_err (L : log_api) (format : string) (args : list fmt_arg)
  : io Z :=
  emit (EvLog PR_ERR format args) ;;; ret (pr_err_ret L).

Definition pr_crit (L : log_api) (format : string) : io Z :=
  emit (EvLog PR_CRIT format []) ;;; ret (pr_crit_ret L).

Definition crypto_err (L : log_api) (format : string) (args : list fmt_arg)
  : io Z :=
  emit (EvLog CRYPTO_ERR format args) ;;; ret (crypto_err_ret L).

Definition pr_enomem (L : log_api) : io Z :=
  emit (EvLog PR_ENOMEM EmptyString []) ;;; ret (pr_enomem_ret L).

Definition pr_errno (error : Z) (format : string) : io unit :=
  emit (EvLog PR_ERRNO format [ArgInt error]).

Definition is_log (fn : log_fn) (e : event) : bool :=
  match e, fn with
  | EvLog PR_WARN _ _, PR_WARN => true
  | EvLog PR_ERR _ _, PR_ERR => true
  | EvLog PR_ERRNO _ _, PR_ERRNO => true
  | EvLog PR_CRIT _ _, PR_CRIT => true
  | EvLog PR_ENOMEM _ _, PR_ENOMEM => true
  | EvLog CRYPTO_ERR _ _, CRYPTO_ERR => true
  | _, _ => false
  end.

(** Does the trace contain a message written through [fn]? *)
Definition reports (fn : log_fn) (t : list event) : bool :=
  existsb (is_log fn) t.

(* ===================================================================== *)
(** ** Resource sets                                                      *)
(* ===================================================================== *)

Inductive family : Type := V4 | V6.

(** Modelled from the spec: [resources.c] is not among the files. An IP
    range is an address family with a numeric start and an inclusive
    numeric end; an AS range is an inclusive pair of AS numbers; a
    resource set is a sequence of each. *)
Record ip_range : Type := {
  ip_family : family;
  ip_start : N;
  ip_end : N
}.

Record as_range : Type := {
  as_min : N;
  as_max : N
}.

Record resources : Type := {
  ips : list ip_range;
  asns : list as_range
}.

(** Modelled from the spec: [resources_create] of [resources.c] returns a
    fresh set, which owns nothing yet. *)
Definition resources_create : resources := {| ips := []; asns := [] |}.

(** Modelled from the spec: [resources_empty] of [resources.c] is the
    [is_empty] test of the resource set. *)
Definition resources_empty (r : resources) : bool :=
  match ips r, asns r with
  | [], [] => true
  | _, _ => false
  end.

(** Modelled from the spec: the stack of resource sets of [resources.c].
    The comment on [struct validation] says it is a singly linked list;
    its head is the top. *)
Definition restack : Type := list resources.

Definition restack_create : restack := [].

Definition restack_push (stack : restack) (r : resources) : restack :=
  r :: stack.

Definition restack_pop (stack : restack) : option resources * restack :=
  match stack with
  | [] => (None, [])
  | r :: rest => (Some r, rest)
  end.

Definition restack_peek (stack : restack) : option resources :=
  match stack with
  | [] => None
  | r :: _ => Some r
  end.

(* ===================================================================== *)
(** ** libcrypto objects used by state.c                                  *)
(* ===================================================================== *)

(** A certificate is identified with its DER encoding. *)
Definition X509 : Type := list byte.

(** The part of a verification context that [cb] reads. *)
Record X509_STORE_CTX : Type := {
  ctx_error : Z
}.

Definition X509_STORE_CTX_get_error (ctx : X509_STORE_CTX) : Z :=
  ctx_error ctx.

Definition verify_cb_t : Type := Z -> X509_STORE_CTX -> Z.

Record X509_STORE : Type := {
  verify_cb : option verify_cb_t
}.

Definition X509_STORE_new : X509_STORE := {| verify_cb := None |}.

Definition X509_STORE_set_verify_cb (store : X509_STORE) (f : verify_cb_t)
  : X509_STORE :=
  {| verify_cb := Some f |}.

(** [STACK_OF(X509)]: an array, bottom first; [sk_X509_push] appends and
    [sk_X509_pop] removes the last element. *)
Definition STACK_OF_X509 : Type := list X509.

Definition sk_X509_new_null : STACK_OF_X509 := [].

Definition sk_X509_num (sk : STACK_OF_X509) : Z := Z.of_nat (List.length sk).

(** Returns the new number of elements, or 0 when the array cannot grow
    ([room = false]). *)
Definition sk_X509_push (room : bool) (sk : STACK_OF_X509) (x : X509)
  : STACK_OF_X509 * Z :=
  if room then (sk ++ [x], sk_X509_num (sk ++ [x])) else (sk, 0).

(** [None] is the NULL that libcrypto returns on an empty stack. *)
Definition sk_X509_pop (sk : STACK_OF_X509) : option X509 * STACK_OF_X509 :=
  match rev sk with
  | [] => (None, sk)
  | x :: below => (Some x, rev below)
  end.

Definition sk_X509_value (sk : STACK_OF_X509) (i : Z) : option X509 :=
  if (0 <=? i) && (i <? sk_X509_num sk) then nth_error sk (Z.to_nat i)
  else None.

(* ===================================================================== *)
(** ** state.c                                                            *)
(* ===================================================================== *)

(** [struct tal] is only stored and handed back; its file name stands for
    it. *)
Definition struct_tal : Type := string.

Inductive enum_pubkey_state : Type :=
| PKS_VALID
| PKS_INVALID
| PKS_UNTESTED.

Record validation : Type := {
  tal : struct_tal;
  store : X509_STORE;
  trusted : STACK_OF_X509;
  rsrcs : restack;
  pubkey_state : enum_pubkey_state
}.

Definition set_trusted (state : validation) (sk : STACK_OF_X509)
  : validation :=
  {| tal := tal state; store := store state; trusted := sk;
     rsrcs := rsrcs state; pubkey_state := pubkey_state state |}.

Definition set_rsrcs (state : validation) (stack : restack) : validation :=
  {| tal := tal state; store := store state; trusted := trusted state;
     rsrcs := stack; pubkey_state := pubkey_state state |}.

Definition set_pubkey_state (state : validation) (p : enum_pubkey_state)
  : validation :=
  {| tal := tal state; store := store state; trusted := trusted state;
     rsrcs := rsrcs state; pubkey_state := p |}.

Definition cb (ok : Z) (ctx : X509_STORE_CTX) : Z :=
  let error := X509_STORE_CTX_get_error ctx in
  if error =? X509_V_ERR_UNHANDLED_CRITICAL_EXTENSION then 1 else ok.

(** The outcomes of the calls [validation_prepare] makes. *)
Record prepare_env : Type := {
  malloc_ok : bool;
  state_store_ret : Z;
  X509_STORE_new_ok : bool;
  sk_X509_new_null_ok : bool;
  restack_create_ok : bool
}.

Definition validation_prepare (L : log_api) (E : prepare_env)
  (t : struct_tal) : io (Z * option validation) :=
  if negb (malloc_ok E) then ret (- ENOMEM, None)
  else if negb (state_store_ret E =? 0) then ret (state_store_ret E, None)
  else if negb (X509_STORE_new_ok E) then
    error <- crypto_err L "X509_STORE_new() returned NULL" [] ;;
    ret (error, None)
  else
    let store := X509_STORE_set_verify_cb X509_STORE_new cb in
    if negb (sk_X509_new_null_ok E) then
      error <- crypto_err L "sk_X509_new_null() returned NULL" [] ;;
      ret (error, None)
    else if negb (restack_create_ok E) then ret (- ENOMEM, None)
    else
      ret (0, Some {| tal := t; store := store;
                      trusted := sk_X509_new_null;
                      rsrcs := restack_create;
                      pubkey_state := PKS_UNTESTED |}).

Definition validation_destroy (L : log_api) (state : validation) : io unit :=
  let cert_num := sk_X509_num (trusted state) in
  if negb (cert_num =? 0) then
    pr_err L "Error: validation state has %d certificates. (0 expected)"
      [ArgInt cert_num] ;;;
    ret tt
  else ret tt.

Definition validation_tal (state : validation) : struct_tal := tal state.

Definition validation_store (state : validation) : X509_STORE := store state.

Definition validation_certs (state : validation) : STACK_OF_X509 :=
  trusted state.

Definition validation_resources (state : validation) : restack :=
  rsrcs state.

Definition validation_pubkey_valid (state : validation) : validation :=
  set_pubkey_state state PKS_VALID.

Definition validation_pubkey_invalid (state : validation) : validation :=
  set_pubkey_state state PKS_INVALID.

Definition validation_pubkey_state (state : validation) : enum_pubkey_state :=
  pubkey_state state.

(** The outcomes of the calls [validation_push_cert] makes.
    [certificate_get_resources cert resources] returns its error code and
    the resource set as it has filled it in. *)
Record push_env : Type := {
  resources_create_ok : bool;
  certificate_get_resources : X509 -> resources -> Z * resources;
  sk_X509_push_ok : bool
}.

Definition validation_push_cert (L : log_api) (E : push_env)
  (state : validation) (cert : X509) (is_ta : bool) : io (Z * validation) :=
  if negb (resources_create_ok E) then ret (- ENOMEM, state)
  else
    let (error, resources) :=
      certificate_get_resources E cert resources_create in
    if negb (error =? 0) then ret (error, state)
    else if is_ta && resources_empty resources then
      error <- pr_err L
        "Trust Anchor certificate does not define any number resources." [] ;;
      ret (error, state)
    else
      let (sk, ok) := sk_X509_push (sk_X509_push_ok E) (trusted state) cert in
      let state := set_trusted state sk in
      if ok <=? 0 then
        error <- crypto_err L
          "Couldn't add certificate to trusted stack: %d" [ArgInt ok] ;;
        ret (error, state)
      else
        ret (0, set_rsrcs state (restack_push (rsrcs state) resources)).

Definition validation_pop_cert (L : log_api) (state : validation)
  : io (Z * validation) :=
  match sk_X509_pop (trusted state) with
  | (None, _) =>
      error <- pr_crit L "Attempted to pop empty certificate stack" ;;
      ret (error, state)
  | (Some _, sk) =>
      let state := set_trusted state sk in
      match restack_pop (rsrcs state) with
      | (None, _) =>
          error <- pr_crit L "Attempted to pop empty resource stack" ;;
          ret (error, state)
      | (Some _, stack) => ret (0, set_rsrcs state stack)
      end
  end.

Definition validation_peek_cert (state : validation) : option X509 :=
  sk_X509_value (trusted state) (sk_X509_num (trusted state) - 1).

Definition validation_peek_resource (state : validation)
  : option resources :=
  restack_peek (rsrcs state).

(** *** Sequences of operations on a validation state *)

Inductive op : Type :=
| OpPushCert (E : push_env) (cert : X509) (is_ta : bool)
| OpPopCert
| OpPeekCert
| OpPeekResource
| OpTal
| OpStore
| OpCerts
| OpResources
| OpPubkeyState
| OpPubkeyValid
| OpPubkeyInvalid.

(** The state an operation leaves behind. The readers return a value and
    write nothing. *)
Definition exec (L : log_api) (o : op) (state : validation) : validation :=
  match o with
  | OpPushCert E cert is_ta =>
      snd (result (validation_push_cert L E state cert is_ta))
  | OpPopCert => snd (result (validation_pop_cert L state))
  | OpPeekCert => let _ := validation_peek_cert state in state
  | OpPeekResource => let _ := validation_peek_resource state in state
  | OpTal => let _ := validation_tal state in state
  | OpStore => let _ := validation_store state in state
  | OpCerts => let _ := validation_certs state in state
  | OpResources => let _ := validation_resources state in state
  | OpPubkeyState => let _ := validation_pubkey_state state in state
  | OpPubkeyValid => validation_pubkey_valid state
  | OpPubkeyInvalid => validation_pubkey_invalid state
  end.

Definition run (L : log_api) (ops : list op) (state : validation)
  : validation :=
  fold_left (fun s o => exec L o s) ops state.

Definition is_pubkey_setter (o : op) : bool :=
  match o with
  | OpPubkeyValid | OpPubkeyInvalid => true
  | _ => false
  end.

(** *** The chain as the specification describes it

    One stack of (certificate, resource set) pairs, top first:
    [push_cert] computes the certificate's resource set, fails if [is_ta]
    and the set is empty, and otherwise pushes certificate and set
    together; [pop_cert] is the symmetric pop. *)
Definition chain : Type := list (X509 * resources).

Definition chain_push (E : push_env) (cert : X509) (is_ta : bool)
  (c : chain) : chain :=
  let computed := certificate_get_resources E cert resources_create in
  if resources_create_ok E && (fst computed =? 0) then
    if is_ta && resources_empty (snd computed) then c
    else if sk_X509_push_ok E then (cert, snd computed) :: c
    else c
  else c.

Definition chain_pop (c : chain) : chain := tl c.

Definition chain_exec (o : op) (c : chain) : chain :=
  match o with
  | OpPushCert E cert is_ta => chain_push E cert is_ta c
  | OpPopCert => chain_pop c
  | _ => c
  end.

Definition chain_run (ops : list op) (c : chain) : chain :=
  fold_left (fun s o => chain_exec o s) ops c.

(** The two stacks of a state hold exactly the pairs of [c]. *)
Definition paired (state : validation) (c : chain) : Prop :=
  trusted state = rev (map fst c) /\ rsrcs state = map snd c.

(* ===================================================================== *)
(** ** libc streams and libcrypto digests used by hash.c                  *)
(* ===================================================================== *)

(** What [file_open] finds behind a path: the bytes that can be read, the
    value [ferror] reports when the medium fails once those bytes are
    delivered (0 when the bytes are the whole file and the stream then
    reaches its end), and the block size that [stat] reports. *)
Record disk_file : Type := {
  contents : list byte;
  read_error : Z;
  st_blksize : positive
}.

Record FILE : Type := {
  f_path : string;
  f_unread : list byte;
  f_read_error : Z;
  f_eof : bool;
  f_error : Z
}.

Definition fopen_stream (path : string) (d : disk_file) : FILE :=
  {| f_path := path; f_unread := contents d; f_read_error := read_error d;
     f_eof := false; f_error := 0 |}.

(** [fread(buffer, 1, n, file)]: delivers [n] bytes, or what is left when
    fewer than [n] remain; in that case the stream has hit its end, and
    either its end-of-file or its error indicator is set. *)
Definition fread (n : nat) (file : FILE) : list byte * FILE :=
  if (List.length (f_unread file) <? n)%nat then
    (f_unread file,
     {| f_path := f_path file; f_unread := [];
        f_read_error := f_read_error file;
        f_eof := if f_read_error file =? 0 then true else f_eof file;
        f_error := if f_read_error file =? 0 then f_error file
                   else f_read_error file |})
  else
    (firstn n (f_unread file),
     {| f_path := f_path file; f_unread := skipn n (f_unread file);
        f_read_error := f_read_error file;
        f_eof := f_eof file; f_error := f_error file |}).

Definition ferror (file : FILE) : Z := f_error file.

Definition feof (file : FILE) : bool := f_eof file.

Definition file_close (file : FILE) : io unit :=
  emit (EvFileClose (f_path file)).

(** A message digest algorithm is the function it computes. *)
Record EVP_MD : Type := {
  md_digest : list byte -> list byte
}.

(** A digest context remembers its algorithm and the bytes absorbed. *)
Record EVP_MD_CTX : Type := {
  ctx_md : option EVP_MD;
  ctx_absorbed : list byte
}.

Definition EVP_MD_CTX_new : EVP_MD_CTX :=
  {| ctx_md := None; ctx_absorbed := [] |}.

Definition EVP_DigestInit_ex (ctx : EVP_MD_CTX) (md : EVP_MD) : EVP_MD_CTX :=
  {| ctx_md := Some md; ctx_absorbed := [] |}.

Definition EVP_DigestUpdate (ctx : EVP_MD_CTX) (data : list byte)
  : EVP_MD_CTX :=
  {| ctx_md := ctx_md ctx; ctx_absorbed := ctx_absorbed ctx ++ data |}.

Definition EVP_DigestFinal_ex (ctx : EVP_MD_CTX) : list byte :=
  match ctx_md ctx with
  | Some md => md_digest md (ctx_absorbed ctx)
  | None => []
  end.

(** [memcmp(s1, s2, n)] on arrays that hold at least [n] bytes each. *)
Fixpoint memcmp (s1 s2 : list byte) (n : nat) : Z :=
  match n, s1, s2 with
  | S k, x :: r1, y :: r2 =>
      if Byte.eqb x y then memcmp r1 r2 k
      else Z.of_N (Byte.to_N x) - Z.of_N (Byte.to_N y)
  | _, _, _ => 0
  end.

(* ===================================================================== *)
(** ** crypto/hash.c                                                      *)
(* ===================================================================== *)

Record rpki_uri : Type := {
  global : string;
  local : string
}.

(** [BIT_STRING_t]: [size] is the number of bytes of [buf]. *)
Record BIT_STRING_t : Type := {
  buf : list byte;
  bits_unused : Z
}.

Definition size (s : BIT_STRING_t) : nat := List.length (buf s).

(** The outcomes of the calls [hash_file] makes. [file_open_ret path] is
    the error code of [file_open] and, when that is 0, the file found. *)
Record hash_env : Type := {
  EVP_get_digestbyname : string -> option EVP_MD;
  file_open_ret : string -> Z * disk_file;
  buffer_malloc_ok : bool;
  EVP_MD_CTX_new_ok : bool;
  EVP_DigestInit_ex_ok : bool;
  EVP_DigestUpdate_ok : bool;
  EVP_DigestFinal_ex_ok : bool
}.

Definition file_open (E : hash_env) (path : string) : io (Z * disk_file) :=
  emit (EvFileOpen path) ;;; ret (file_open_ret E path).

Definition get_md (E : hash_env) (algorithm : string) : io (Z + EVP_MD) :=
  match EVP_get_digestbyname E algorithm with
  | None =>
      emit (EvPrintf "Unknown message digest %s\n" [ArgStr algorithm]) ;;;
      ret (inl (- EINVAL))
  | Some md => ret (inr md)
  end.

Definition hash_matches (expected : list byte) (expected_len : nat)
  (actual : list byte) (actual_len : nat) : bool :=
  (expected_len =? actual_len)%nat
  && (memcmp expected actual expected_len =? 0).

(** How the [do ... while] loop of [hash_file] is left: through
    [goto end3] with an error code, or past its condition. *)
Inductive loop_exit : Type :=
| GotoEnd3 (error : Z)
| LoopDone (ctx : EVP_MD_CTX).

(** Case analysis that keeps the equation, for the termination proof. *)
Definition inspect {A : Type} (a : A) : {b : A | a = b} :=
  exist _ a eq_refl.

Equations? hash_file_loop (L : log_api) (E : hash_env) (buffer_len : positive)
  (file : FILE) (ctx : EVP_MD_CTX) : io loop_exit
  by wf (List.length (f_unread file)) lt :=
hash_file_loop L E buffer_len file ctx
  with inspect (fread (Pos.to_nat buffer_len) file) := {
  | exist _ (consumed, file1) Hread with inspect (ferror file1 =? 0) := {
    | exist _ false _ =>
        pr_errno (ferror file1)
          "File reading error. Error message (apparently)" ;;;
        ret (GotoEnd3 (ferror file1))
    | exist _ true Herror with EVP_DigestUpdate_ok E := {
      | false =>
          error <- crypto_err L "EVP_DigestUpdate() failed" [] ;;
          ret (GotoEnd3 error)
      | true with inspect (feof file1) := {
        | exist _ true _ => ret (LoopDone (EVP_DigestUpdate ctx consumed))
        | exist _ false Heof =>
            hash_file_loop L E buffer_len file1
              (EVP_DigestUpdate ctx consumed) } } } }.
Proof.
  unfold fread in Hread.
  destruct (List.length (f_unread file) <? Pos.to_nat buffer_len)%nat
    eqn:Hshort; inversion Hread; subst; clear Hread.
  - unfold feof, ferror in *. simpl in *.
    destruct (f_read_error file =? 0) eqn:Hmedium.
    + discriminate.
    + apply Z.eqb_eq in Herror. apply Z.eqb_neq in Hmedium. contradiction.
  - apply Nat.ltb_ge in Hshort. simpl. rewrite length_skipn. lia.
Qed.

(** The pair is the returned error code and the digest written to
    [result] (of length [result_len]); the digest is meaningful only when
    the code is 0. *)
Definition hash_file (L : log_api) (E : hash_env) (algorithm : string)
  (uri : rpki_uri) : io (Z * list byte) :=
  m <- get_md E algorithm ;;
  match m with
  | inl error => ret (error, [])
  | inr md =>
      o <- file_open E (local uri) ;;
      let (error, d) := o in
      if negb (error =? 0) then ret (error, [])
      else
        let file := fopen_stream (local uri) d in
        let buffer_len := st_blksize d in
        r <- (if negb (buffer_malloc_ok E) then
                error <- pr_enomem L ;; ret (error, [])
              else if negb (EVP_MD_CTX_new_ok E) then
                error <- pr_enomem L ;; ret (error, [])
              else if negb (EVP_DigestInit_ex_ok E) then
                error <- crypto_err L "EVP_DigestInit_ex() failed" [] ;;
                ret (error, [])
              else
                x <- hash_file_loop L E buffer_len file
                       (EVP_DigestInit_ex EVP_MD_CTX_new md) ;;
                match x with
                | GotoEnd3 error => ret (error, [])
                | LoopDone ctx =>
                    if negb (EVP_DigestFinal_ex_ok E) then
                      error <- crypto_err L "EVP_DigestFinal_ex() failed" [] ;;
                      ret (error, [])
                    else ret (0, EVP_DigestFinal_ex ctx)
                end) ;;
        file_close file ;;;
        ret r
  end.

Definition hash_validate_file (L : log_api) (E : hash_env)
  (algorithm : string) (uri : rpki_uri) (expected : BIT_STRING_t) : io Z :=
  if negb (bits_unused expected =? 0) then
    pr_err L "Hash string has unused bits." []
  else
    h <- hash_file L E algorithm uri ;;
    let (error, actual) := h in
    if negb (error =? 0) then ret error
    else if negb (hash_matches (buf expected) (size expected)
                    actual (List.length actual)) then
      pr_err L "File does not match its hash." []
    else ret 0.

(** Did every step that [hash_file] takes after [get_md] succeed? *)
Definition hash_file_steps_ok (E : hash_env) (path : string) : bool :=
  (fst (file_open_ret E path) =? 0)
  && (read_error (snd (file_open_ret E path)) =? 0)
  && buffer_malloc_ok E && EVP_MD_CTX_new_ok E && EVP_DigestInit_ex_ok E
  && EVP_DigestUpdate_ok E && EVP_DigestFinal_ex_ok E.

(* ===================================================================== *)
(** ** notify.c                                                           *)
(* ===================================================================== *)

Definition serial_t : Type := N.

Record client : Type := {
  fd : Z;
  rtr_version : Z
}.

(** The outcomes of the calls [notify_clients] makes: the error code and
    serial of [get_last_serial_number], the error code of each
    [send_serial_notify_pdu], and the registry that [clients_foreach]
    walks. *)
Record notify_env : Type := {
  get_last_serial_number_ret : Z * serial_t;
  send_serial_notify_pdu_ret : Z -> Z -> serial_t -> Z;
  clients : list client
}.

Definition get_last_serial_number (E : notify_env) : io (Z * serial_t) :=
  emit EvGetLastSerialNumber ;;; ret (get_last_serial_number_ret E).

Definition send_serial_notify_pdu (E : notify_env) (fd : Z) (version : Z)
  (serial : serial_t) : io Z :=
  emit (EvSerialNotify fd version serial) ;;;
  ret (send_serial_notify_pdu_ret E fd version serial).

Definition send_notify (E : notify_env) (c : client) (arg : serial_t)
  : io Z :=
  error <- send_serial_notify_pdu E (fd c) (rtr_version c) arg ;;
  (if negb (error =? 0) then
     pr_warn "Error code %d sending notify PDU to client." [ArgInt error]
   else ret tt) ;;;
  ret 0.

(** Modelled from the spec: [clients_foreach] of [clients.c] is the
    registry's [for_each]. It calls [cb] on each registered client in
    turn; a nonzero result of [cb] interrupts the walk (see the comment in
    [send_notify]) and is returned. *)
Fixpoint clients_foreach {A : Type} (cb : client -> A -> io Z) (arg : A)
  (table : list client) : io Z :=
  match table with
  | [] => ret 0
  | c :: rest =>
      error <- cb c arg ;;
      if negb (error =? 0) then ret error
      else clients_foreach cb arg rest
  end.

Definition notify_clients (E : notify_env) : io Z :=
  s <- get_last_serial_number E ;;
  let (error, serial) := s in
  if negb (error =? 0) then ret error
  else clients_foreach (send_notify E) serial (clients E).

(** What one client contributes to the broadcast: the PDU, and a warning
    if sending it failed. *)
Definition notified (E : notify_env) (serial : serial_t) (c : client)
  : list event :=
  EvSerialNotify (fd c) (rtr_version c) serial ::
  (let error := send_serial_notify_pdu_ret E (fd c) (rtr_version c) serial in
   if error =? 0 then []
   else [EvLog PR_WARN "Error code %d sending notify PDU to client."
           [ArgInt error]]).

(* ===================================================================== *)
(** ** The canonical form of a resource set                               *)
(* ===================================================================== *)

(** Modelled from the spec: no file of the sources canonicalizes; the
    policy is "ranges are sorted by start, any adjacent or overlapping
    ranges are fused; equal ranges collapse". A range is the pair of its
    start and its inclusive end. *)
Definition range : Type := (N * N)%type.

Fixpoint insert_range (r : range) (l : list range) : list range :=
  match l with
  | [] => [r]
  | h :: t =>
      if (fst r <=? fst h)%N then r :: l else h :: insert_range r t
  end.

Fixpoint sort_ranges (l : list range) : list range :=
  match l with
  | [] => []
  | h :: t => insert_range h (sort_ranges t)
  end.

(** [cur] is the range being grown; [l] is what follows it, sorted by
    start. A range that starts inside [cur] or right after its end is
    absorbed. *)
Fixpoint fuse_ranges (cur : range) (l : list range) : list range :=
  match l with
  | [] => [cur]
  | h :: t =>
      if (fst h <=? snd cur + 1)%N then
        fuse_ranges (fst cur, N.max (snd cur) (snd h)) t
      else cur :: fuse_ranges h t
  end.

Definition canonicalize_ranges (l : list range) : list range :=
  match sort_ranges l with
  | [] => []
  | h :: t => fuse_ranges h t
  end.

Definition family_eqb (a b : family) : bool :=
  match a, b with
  | V4, V4 | V6, V6 => true
  | _, _ => false
  end.

Definition ranges_of_family (f : family) (l : list ip_range) : list range :=
  map (fun r => (ip_start r, ip_end r))
      (filter (fun r => family_eqb (ip_family r) f) l).

Definition ip_ranges_in (f : family) (l : list range) : list ip_range :=
  map (fun r => {| ip_family := f; ip_start := fst r; ip_end := snd r |}) l.

(** Ranges of different families never touch: each family is
    canonicalized on its own, IPv4 first. *)
Definition canonicalize_ips (l : list ip_range) : list ip_range :=
  ip_ranges_in V4 (canonicalize_ranges (ranges_of_family V4 l)) ++
  ip_ranges_in V6 (canonicalize_ranges (ranges_of_family V6 l)).

Definition canonicalize_asns (l : list as_range) : list as_range :=
  map (fun r => {| as_min := fst r; as_max := snd r |})
      (canonicalize_ranges (map (fun a => (as_min a, as_max a)) l)).

Definition canonicalize (X : resources) : resources :=
  {| ips := canonicalize_ips (ips X); asns := canonicalize_asns (asns X) |}.

(** A list in canonical form after [cur]: starts do not decrease and each
    range begins more than one past the end of the one before it. *)
Fixpoint separated (cur : range) (l : list range) : Prop :=
  match l with
  | [] => True
  | h :: t =>
      (fst cur <= fst h)%N /\ (snd cur + 1 < fst h)%N /\ separated h t
  end.

Definition canonical (l : list range) : Prop :=
  match l with
  | [] => True
  | h :: t => separated h t
  end.

(** Starts do not decrease along [l], and none is below [k]. *)
Fixpoint sorted_from (k : N) (l : list range) : Prop :=
  match l with
  | [] => True
  | h :: t => (k <= fst h)%N /\ sorted_from (fst h) t
  end.

(* ===================================================================== *)
(** ** crypto/hash.c: hashing a buffer                                    *)
(* ===================================================================== *)

(** [OCTET_STRING_t]: [size] is the number of bytes of its buffer. *)
Record OCTET_STRING_t : Type := {
  octets : list byte
}.

(** asn1/asn1c/ContentTypePKCS7.h *)
Definition ContentTypePKCS7_t : Type := OCTET_STRING_t.

(** The pair is the returned error code and the digest written to [hash]
    (of length [hash_len]); the three digest calls are chained with [||],
    so a later one runs only if the earlier ones succeeded. *)
Definition hash_buffer (L : log_api) (E : hash_env) (algorithm : string)
  (content : list byte) : io (Z * list byte) :=
  m <- get_md E algorithm ;;
  match m with
  | inl error => ret (error, [])
  | inr md =>
      if negb (EVP_MD_CTX_new_ok E) then
        error <- pr_enomem L ;; ret (error, [])
      else
        let ctx := EVP_MD_CTX_new in
        if negb (EVP_DigestInit_ex_ok E)
           || negb (EVP_DigestUpdate_ok E)
           || negb (EVP_DigestFinal_ex_ok E) then
          error <- crypto_err L "Buffer hashing failed" [] ;;
          ret (error, [])
        else
          ret (0, EVP_DigestFinal_ex
                    (EVP_DigestUpdate (EVP_DigestInit_ex ctx md) content))
  end.

Definition hash_validate (L : log_api) (E : hash_env) (algorithm : string)
  (expected : list byte) (expected_len : nat) (data : list byte) : io Z :=
  h <- hash_buffer L E algorithm data ;;
  let (error, actual) := h in
  if negb (error =? 0) then ret error
  else
    ret (if hash_matches expected expected_len actual (List.length actual)
         then 0 else - EINVAL).

Definition hash_validate_octet_string (L : log_api) (E : hash_env)
  (algorithm : string) (expected data : OCTET_STRING_t) : io Z :=
  hash_validate L E algorithm (octets expected)
    (List.length (octets expected)) (octets data).

(** The events of [hash_file] that touch the file system. *)
Definition is_file_event (e : event) : bool :=
  match e with
  | EvFileOpen _ | EvFileClose _ => true
  | _ => false
  end.

(* ===================================================================== *)
(** ** notify.c: reading the trace of a broadcast                         *)
(* ===================================================================== *)

Definition is_serial_notify (e : event) : bool :=
  match e with
  | EvSerialNotify _ _ _ => true
  | _ => false
  end.

(** Did sending [serial] to [c] fail? *)
Definition send_fails (E : notify_env) (serial : serial_t) (c : client)
  : bool :=
  negb (send_serial_notify_pdu_ret E (fd c) (rtr_version c) serial =? 0).

(* ===================================================================== *)
(** ** test/impersonator.c                                                *)
(* ===================================================================== *)

(** [INET6_ADDRSTRLEN] of <netinet/in.h>. *)
Definition INET6_ADDRSTRLEN : nat := 46.

Definition in_addr : Type := N.

Definition in6_addr : Type := N.

(** The two static buffers, and a pointer to one of them. *)
Record addr_buffers : Type := {
  addr_buffer1 : string;
  addr_buffer2 : string
}.

Inductive addr_ptr : Type := AddrBuffer1 | AddrBuffer2.

Definition read_addr (p : addr_ptr) (bufs : addr_buffers) : string :=
  match p with
  | AddrBuffer1 => addr_buffer1 bufs
  | AddrBuffer2 => addr_buffer2 bufs
  end.

Definition write_addr (p : addr_ptr) (text : string) (bufs : addr_buffers)
  : addr_buffers :=
  match p with
  | AddrBuffer1 =>
      {| addr_buffer1 := text; addr_buffer2 := addr_buffer2 bufs |}
  | AddrBuffer2 =>
      {| addr_buffer1 := addr_buffer1 bufs; addr_buffer2 := text |}
  end.

(** The text libc produces for an address of each family; [None] when it
    cannot convert. *)
Record inet_env : Type := {
  ntop_v4 : in_addr -> option string;
  ntop_v6 : in6_addr -> option string
}.

(** [inet_ntop(af, src, dst, size)]: copies the text and its terminator
    into [dst] when they fit in [size] bytes and returns [dst]; returns
    NULL, with [dst] as it was, otherwise. *)
Definition inet_ntop (text : option string) (dst : addr_ptr) (size : nat)
  (bufs : addr_buffers) : option addr_ptr * addr_buffers :=
  match text with
  | Some t =>
      if (String.length t <? size)%nat then (Some dst, write_addr dst t bufs)
      else (None, bufs)
  | None => (None, bufs)
  end.

Definition v4addr2str (E : inet_env) (addr : in_addr) (bufs : addr_buffers)
  : option addr_ptr * addr_buffers :=
  inet_ntop (ntop_v4 E addr) AddrBuffer1 INET6_ADDRSTRLEN bufs.

Definition v4addr2str2 (E : inet_env) (addr : in_addr) (bufs : addr_buffers)
  : option addr_ptr * addr_buffers :=
  inet_ntop (ntop_v4 E addr) AddrBuffer2 INET6_ADDRSTRLEN bufs.

Definition v6addr2str (E : inet_env) (addr : in6_addr) (bufs : addr_buffers)
  : option addr_ptr * addr_buffers :=
  inet_ntop (ntop_v6 E addr) AddrBuffer1 INET6_ADDRSTRLEN bufs.

Definition v6addr2str2 (E : inet_env) (addr : in6_addr) (bufs : addr_buffers)
  : option addr_ptr * addr_buffers :=
  inet_ntop (ntop_v6 E addr) AddrBuffer2 INET6_ADDRSTRLEN bufs.

(** The four converters, as one call: which family, which buffer. *)
Definition addr2str (E : inet_env) (second : bool) (addr : in_addr + in6_addr)
  (bufs : addr_buffers) : option addr_ptr * addr_buffers :=
  match addr, second with
  | inl a, false => v4addr2str E a bufs
  | inl a, true => v4addr2str2 E a bufs
  | inr a, false => v6addr2str E a bufs
  | inr a, true => v6addr2str2 E a bufs
  end.

Definition addr_text (E : inet_env) (addr : in_addr + in6_addr)
  : option string :=
  match addr with
  | inl a => ntop_v4 E a
  | inr a => ntop_v6 E a
  end.

(* ===================================================================== *)
(** ** Concrete inputs                                                    *)
(* ===================================================================== *)

Definition prepare_env_ok : prepare_env :=
  {| malloc_ok := true; state_store_ret := 0; X509_STORE_new_ok := true;
     sk_X509_new_null_ok := true; restack_create_ok := true |}.

Definition state_of (sk : STACK_OF_X509) (stack : restack) : validation :=
  {| tal := "ta.tal"%string;
     store := X509_STORE_set_verify_cb X509_STORE_new cb;
     trusted := sk; rsrcs := stack; pubkey_state := PKS_UNTESTED |}.

Definition some_resources : resources :=
  {| ips := [{| ip_family := V4; ip_start := 167772160%N;
                ip_end := 184549375%N |}];
     asns := [{| as_min := 64500%N; as_max := 64500%N |}] |}.

Definition ta_cert : X509 := [x30; x82; x01; x0a].

Definition ca_cert : X509 := [x30; x82; x02; x14].

(** Every call succeeds and the certificate holds [some_resources]. *)
Definition push_env_ok : push_env :=
  {| resources_create_ok := true;
     certificate_get_resources := fun _ _ => (0, some_resources);
     sk_X509_push_ok := true |}.

(** Every call succeeds and the certificate holds no resources. *)
Definition push_env_no_resources : push_env :=
  {| resources_create_ok := true;
     certificate_get_resources := fun _ r => (0, r);
     sk_X509_push_ok := true |}.

(** The allocation of the resource set fails. *)
Definition push_env_enomem : push_env :=
  {| resources_create_ok := false;
     certificate_get_resources := fun _ r => (0, r);
     sk_X509_push_ok := true |}.

(** A cycle that pushes the trust anchor and a CA, looks at the top,
    fails to push another CA, and pops the CA again. *)
Definition sample_ops : list op :=
  [OpPushCert push_env_ok ta_cert true;
   OpPubkeyState;
   OpPushCert push_env_no_resources ca_cert false;
   OpPeekCert;
   OpPeekResource;
   OpPushCert push_env_enomem ca_cert false;
   OpPopCert].

(** A stand-in digest: the last two bytes absorbed, latest first. *)
Definition toy_md : EVP_MD :=
  {| md_digest := fun data => firstn 2 (rev data) |}.

Definition sample_file : disk_file :=
  {| contents := [x01; x02; x03; x04; x05]; read_error := 0;
     st_blksize := 2%positive |}.

Definition missing_file : disk_file :=
  {| contents := []; read_error := 0; st_blksize := 1%positive |}.

Definition sample_uri : rpki_uri :=
  {| global := "rsync://rpki.example/repo/a.roa";
     local := "repository/rpki.example/repo/a.roa" |}.

(** Only "sha256" is known, only [sample_uri] exists, nothing fails. *)
Definition hash_env_ok : hash_env :=
  {| EVP_get_digestbyname :=
       fun name => if String.eqb name "sha256" then Some toy_md else None;
     file_open_ret :=
       fun path =>
         if String.eqb path "repository/rpki.example/repo/a.roa"
         then (0, sample_file) else (- 2, missing_file);
     buffer_malloc_ok := true;
     EVP_MD_CTX_new_ok := true;
     EVP_DigestInit_ex_ok := true;
     EVP_DigestUpdate_ok := true;
     EVP_DigestFinal_ex_ok := true |}.

(** As [hash_env_ok], but the read buffer cannot be allocated. *)
Definition hash_env_enomem : hash_env :=
  {| EVP_get_digestbyname := EVP_get_digestbyname hash_env_ok;
     file_open_ret := file_open_ret hash_env_ok;
     buffer_malloc_ok := false;
     EVP_MD_CTX_new_ok := true;
     EVP_DigestInit_ex_ok := true;
     EVP_DigestUpdate_ok := true;
     EVP_DigestFinal_ex_ok := true |}.

(** The digest of [sample_file] under [toy_md], as a whole BIT STRING. *)
Definition expected_hash : BIT_STRING_t :=
  {| buf := [x05; x04]; bits_unused := 0 |}.

(** The same bytes, with three unused bits in the last one. *)
Definition expected_hash_unused_bits : BIT_STRING_t :=
  {| buf := [x05; x04]; bits_unused := 3 |}.

Definition router_a : client := {| fd := 7; rtr_version := 1 |}.

Definition router_b : client := {| fd := 9; rtr_version := 0 |}.

(** Serial 42 is current; sending to descriptor 7 fails with EPIPE. *)
Definition notify_env_ok : notify_env :=
  {| get_last_serial_number_ret := (0, 42%N);
     send_serial_notify_pdu_ret := fun fd _ _ => if fd =? 7 then 32 else 0;
     clients := [router_a; router_b] |}.

(** The database holds no snapshot yet: the serial cannot be read. *)
Definition notify_env_no_serial : notify_env :=
  {| get_last_serial_number_ret := (- EAGAIN, 0%N);
     send_serial_notify_pdu_ret := fun _ _ _ => 0;
     clients := [router_a; router_b] |}.

(** The same files and algorithms, but every digest update fails. *)
Definition hash_env_update_fails : hash_env :=
  {| EVP_get_digestbyname := EVP_get_digestbyname hash_env_ok;
     file_open_ret := file_open_ret hash_env_ok;
     buffer_malloc_ok := true;
     EVP_MD_CTX_new_ok := true;
     EVP_DigestInit_ex_ok := true;
     EVP_DigestUpdate_ok := false;
     EVP_DigestFinal_ex_ok := true |}.

Definition missing_uri : rpki_uri :=
  {| global := "rsync://rpki.example/repo/b.roa";
     local := "repository/rpki.example/repo/b.roa" |}.

(** [X509_STORE_new] returns NULL. *)
Definition prepare_env_no_store : prepare_env :=
  {| malloc_ok := true; state_store_ret := 0; X509_STORE_new_ok := false;
     sk_X509_new_null_ok := true; restack_create_ok := true |}.

(** The certificate stack cannot grow. *)
Definition push_env_full : push_env :=
  {| resources_create_ok := true;
     certificate_get_resources := fun _ _ => (0, some_resources);
     sk_X509_push_ok := false |}.

(** Dotted text for two addresses only; everything else does not
    convert. *)
Definition sample_inet : inet_env :=
  {| ntop_v4 := fun a =>
       if (a =? 3232235777)%N then Some "192.168.1.1"%string
       else if (a =? 167772161)%N then Some "10.0.0.1"%string
       else None;
     ntop_v6 := fun a =>
       if (a =? 1)%N then Some "::1"%string else None |}.

Definition empty_buffers : addr_buffers :=
  {| addr_buffer1 := ""%string; addr_buffer2 := ""%string |}.

(** A file whose medium fails with indicator 5 after three bytes. *)
Definition damaged_file : disk_file :=
  {| contents := [x01; x02; x03]; read_error := 5;
     st_blksize := 2%positive |}.

(** As [hash_env_ok], but [sample_uri] is the damaged file. *)
Definition hash_env_damaged : hash_env :=
  {| EVP_get_digestbyname := EVP_get_digestbyname hash_env_ok;
     file_open_ret := fun _ => (0, damaged_file);
     buffer_malloc_ok := true;
     EVP_MD_CTX_new_ok := true;
     EVP_DigestInit_ex_ok := true;
     EVP_DigestUpdate_ok := true;
     EVP_DigestFinal_ex_ok := true |}.

(* ===================================================================== *)
(** * Properties                                                          *)
(* ===================================================================== *)

Ltac io_unfold :=
  unfold result, events, bind, ret, emit, pr_err, pr_crit, crypto_err,
    pr_enomem, pr_errno, pr_warn in *.

(** ** The verification callback *)

Lemma cb_unhandled_critical_extension ok ctx :
  X509_STORE_CTX_get_error ctx = X509_V_ERR_UNHANDLED_CRITICAL_EXTENSION ->
  cb ok ctx = 1.
Proof.
  intros H. unfold cb. rewrite H. rewrite Z.eqb_refl. reflexivity.
Qed.

Lemma cb_other_error ok ctx :
  X509_STORE_CTX_get_error ctx <> X509_V_ERR_UNHANDLED_CRITICAL_EXTENSION ->
  cb ok ctx = ok.
Proof.
  intros H. unfold cb. apply Z.eqb_neq in H. rewrite H. reflexivity.
Qed.

(** Every way [validation_prepare] can return a state. *)
Lemma validation_prepare_success L E t state :
  snd (result (validation_prepare L E t)) = Some state ->
  state = {| tal := t;
             store := X509_STORE_set_verify_cb X509_STORE_new cb;
             trusted := sk_X509_new_null;
             rsrcs := restack_create;
             pubkey_state := PKS_UNTESTED |}.
Proof.
  unfold validation_prepare.
  destruct (malloc_ok E), (state_store_ret E =? 0), (X509_STORE_new_ok E),
    (sk_X509_new_null_ok E), (restack_create_ok E);
    io_unfold; simpl; intros H; try discriminate; congruence.
Qed.

(** C1. The callback that [validation_prepare] registers on the store is
    [cb], and it ignores exactly the error UNHANDLED_CRITICAL_EXTENSION.
    For that code it returns 1 (ignore), whatever verdict it is called
    with. For every other code it hands the verdict back unchanged, so
    every other error that libcrypto reports (a call with [ok = 0]) is
    fatal: [cb] returns 0, the aborting status. *)
Theorem cb_overrides_only_unhandled_critical_extension :
  forall L E t state,
    result (validation_prepare L E t) = (0, Some state) ->
    verify_cb (store state) = Some cb /\
    forall ok ctx,
      (X509_STORE_CTX_get_error ctx = X509_V_ERR_UNHANDLED_CRITICAL_EXTENSION ->
       cb ok ctx = 1) /\
      (X509_STORE_CTX_get_error ctx <> X509_V_ERR_UNHANDLED_CRITICAL_EXTENSION ->
       cb ok ctx = ok /\ cb 0 ctx = 0).
Proof.
  intros L E t state H.
  assert (Hs : snd (result (validation_prepare L E t)) = Some state)
    by (rewrite H; reflexivity).
  apply validation_prepare_success in Hs. subst state. split.
  - reflexivity.
  - intros ok ctx. split.
    + apply cb_unhandled_critical_extension.
    + intros Hne. split; apply cb_other_error; exact Hne.
Qed.

Lemma cb_overrides_only_unhandled_critical_extension_witness :
  verify_cb (store {| tal := "ta.tal"%string;
                      store := X509_STORE_set_verify_cb X509_STORE_new cb;
                      trusted := []; rsrcs := [];
                      pubkey_state := PKS_UNTESTED |}) = Some cb /\
  cb 0 {| ctx_error := X509_V_ERR_CERT_HAS_EXPIRED |} = 0.
Proof.
  destruct (cb_overrides_only_unhandled_critical_extension
              fort_log prepare_env_ok "ta.tal"%string _ eq_refl) as [Hcb Hall].
  split.
  - exact Hcb.
  - destruct (Hall 0 {| ctx_error := X509_V_ERR_CERT_HAS_EXPIRED |})
      as [_ Hother].
    apply Hother. vm_compute. discriminate.
Defined.

(** ** validation_destroy *)

(** C2. Destroying a state whose stack of trusted certificates is not
    empty reports an error through [pr_err]; destroying a state whose
    stack is empty reports nothing. *)
Theorem validation_destroy_reports_leftover_certificates :
  forall L state,
    (sk_X509_num (trusted state) <> 0 ->
     reports PR_ERR (events (validation_destroy L state)) = true /\
     In (EvLog PR_ERR
           "Error: validation state has %d certificates. (0 expected)"
           [ArgInt (sk_X509_num (trusted state))])
        (events (validation_destroy L state))) /\
    (sk_X509_num (trusted state) = 0 ->
     events (validation_destroy L state) = []).
Proof.
  intros L state. unfold validation_destroy. split; intros H.
  - apply Z.eqb_neq in H. rewrite H. simpl. split; [reflexivity | now left].
  - rewrite H. reflexivity.
Qed.

Lemma validation_destroy_reports_leftover_certificates_witness :
  reports PR_ERR
    (events (validation_destroy fort_log
               (state_of [[x30; x82]] [some_resources]))) = true /\
  events (validation_destroy fort_log (state_of [] [])) = [].
Proof.
  split.
  - apply (validation_destroy_reports_leftover_certificates fort_log
             (state_of [[x30; x82]] [some_resources])).
    vm_compute. discriminate.
  - apply (validation_destroy_reports_leftover_certificates fort_log
             (state_of [] [])).
    reflexivity.
Defined.

(** ** validation_push_cert *)

Lemma sk_X509_pop_empty : sk_X509_pop [] = (None, []).
Proof. reflexivity. Qed.

Lemma sk_X509_pop_push sk x : sk_X509_pop (sk ++ [x]) = (Some x, sk).
Proof.
  unfold sk_X509_pop. rewrite rev_app_distr. simpl.
  rewrite rev_involutive. reflexivity.
Qed.

Lemma sk_X509_num_push sk x : 0 < sk_X509_num (sk ++ [x]).
Proof.
  unfold sk_X509_num. rewrite length_app. simpl. lia.
Qed.

(** The result of [validation_push_cert], path by path. *)
Lemma validation_push_cert_cases L E state cert is_ta :
  let computed := certificate_get_resources E cert resources_create in
  let r := result (validation_push_cert L E state cert is_ta) in
  if resources_create_ok E && (fst computed =? 0) then
    if is_ta && resources_empty (snd computed) then
      r = (pr_err_ret L, state)
    else if sk_X509_push_ok E then
      r = (0, set_rsrcs (set_trusted state (trusted state ++ [cert]))
                (snd computed :: rsrcs state))
    else r = (crypto_err_ret L, set_trusted state (trusted state))
  else fst r <> 0 /\ snd r = state.
Proof.
  unfold validation_push_cert.
  destruct (resources_create_ok E); simpl.
  2: { split; [discriminate | reflexivity]. }
  destruct (certificate_get_resources E cert resources_create)
    as [error computed]. simpl.
  destruct (error =? 0) eqn:Herr; simpl.
  2: { apply Z.eqb_neq in Herr. split; [exact Herr | reflexivity]. }
  destruct (is_ta && resources_empty computed); simpl.
  - reflexivity.
  - unfold sk_X509_push. destruct (sk_X509_push_ok E).
    + pose proof (sk_X509_num_push (trusted state) cert) as Hnum.
      apply Z.leb_gt in Hnum. rewrite Hnum. reflexivity.
    + reflexivity.
Qed.

(** C3. With [is_ta] set and an empty computed resource set,
    [validation_push_cert] returns a nonzero error and leaves the state,
    so both stacks, as it was. When it returns 0, the certificate is on
    top of the certificate stack and its resource set on top of the
    resource stack, the rest of the state being as before. *)
Theorem validation_push_cert_spec :
  forall L E state cert is_ta,
    log_api_fails L ->
    let computed := snd (certificate_get_resources E cert resources_create) in
    let r := result (validation_push_cert L E state cert is_ta) in
    (is_ta = true -> resources_empty computed = true ->
     fst r <> 0 /\ snd r = state) /\
    (fst r = 0 ->
     trusted (snd r) = trusted state ++ [cert] /\
     rsrcs (snd r) = computed :: rsrcs state /\
     tal (snd r) = tal state /\ store (snd r) = store state /\
     pubkey_state (snd r) = pubkey_state state).
Proof.
  intros L E state cert is_ta (Herr & _ & Hcrypto & _) computed r.
  pose proof (validation_push_cert_cases L E state cert is_ta) as H.
  cbv zeta in H. fold computed in H. fold r in H.
  destruct (resources_create_ok E &&
            (fst (certificate_get_resources E cert resources_create) =? 0)).
  - split.
    + intros Hta Hempty. subst is_ta. rewrite Hempty in H. simpl in H.
      rewrite H. simpl. split; [exact Herr | reflexivity].
    + intros H0.
      destruct (is_ta && resources_empty computed).
      * rewrite H in H0. simpl in H0. contradiction.
      * destruct (sk_X509_push_ok E).
        -- rewrite H. simpl. repeat split; reflexivity.
        -- rewrite H in H0. simpl in H0. contradiction.
  - destruct H as [Hne Hst]. split.
    + intros _ _. split; assumption.
    + intros H0. contradiction.
Qed.

Lemma fort_log_fails : log_api_fails fort_log.
Proof. repeat split; vm_compute; discriminate. Qed.

Lemma validation_push_cert_spec_witness :
  (fst (result (validation_push_cert fort_log push_env_no_resources
                  (state_of [] []) ta_cert true)) <> 0 /\
   snd (result (validation_push_cert fort_log push_env_no_resources
                  (state_of [] []) ta_cert true)) = state_of [] []) /\
  trusted (snd (result (validation_push_cert fort_log push_env_ok
                          (state_of [] []) ta_cert true))) = [] ++ [ta_cert].
Proof.
  split.
  - apply (proj1 (validation_push_cert_spec fort_log push_env_no_resources
                    (state_of [] []) ta_cert true fort_log_fails));
      reflexivity.
  - apply (proj2 (validation_push_cert_spec fort_log push_env_ok
                    (state_of [] []) ta_cert true fort_log_fails)).
    reflexivity.
Defined.

(** ** validation_pop_cert, path by path *)

Lemma validation_pop_cert_empty L state :
  trusted state = [] ->
  validation_pop_cert L state =
  ((pr_crit_ret L, state),
   [EvLog PR_CRIT "Attempted to pop empty certificate stack" []]).
Proof.
  intros H. unfold validation_pop_cert. rewrite H. reflexivity.
Qed.

Lemma validation_pop_cert_no_resources L state below cert :
  trusted state = below ++ [cert] -> rsrcs state = [] ->
  validation_pop_cert L state =
  ((pr_crit_ret L, set_trusted state below),
   [EvLog PR_CRIT "Attempted to pop empty resource stack" []]).
Proof.
  intros H Hr. unfold validation_pop_cert. rewrite H, sk_X509_pop_push.
  simpl. rewrite Hr. reflexivity.
Qed.

Lemma validation_pop_cert_both L state below cert top rest :
  trusted state = below ++ [cert] -> rsrcs state = top :: rest ->
  validation_pop_cert L state =
  ((0, set_rsrcs (set_trusted state below) rest), []).
Proof.
  intros H Hr. unfold validation_pop_cert. rewrite H, sk_X509_pop_push.
  simpl. rewrite Hr. reflexivity.
Qed.

(** ** The two stacks against the chain of pairs *)

Lemma exec_paired L o state c :
  paired state c -> paired (exec L o state) (chain_exec o c).
Proof.
  intros [Ht Hr].
  destruct o; simpl; try (split; assumption).
  - pose proof (validation_push_cert_cases L E state cert is_ta) as H.
    cbv zeta in H. unfold chain_push.
    destruct (resources_create_ok E &&
              (fst (certificate_get_resources E cert resources_create) =? 0)).
    + destruct (is_ta && resources_empty
                  (snd (certificate_get_resources E cert resources_create))).
      * rewrite H. split; assumption.
      * destruct (sk_X509_push_ok E); rewrite H; split; simpl;
          congruence.
    + destruct H as [_ H]. rewrite H. split; assumption.
  - destruct c as [|[cert top] c].
    + simpl in Ht, Hr.
      rewrite (validation_pop_cert_empty L state Ht). split; assumption.
    + simpl in Ht, Hr.
      rewrite (validation_pop_cert_both L state _ _ _ _ Ht Hr).
      split; reflexivity.
Qed.

Lemma run_paired L ops :
  forall state c,
    paired state c -> paired (run L ops state) (chain_run ops c).
Proof.
  induction ops as [|o ops IH]; intros state c H.
  - exact H.
  - simpl. apply IH. apply exec_paired. exact H.
Qed.

Lemma paired_length state c :
  paired state c -> List.length (trusted state) = List.length (rsrcs state).
Proof.
  intros [Ht Hr]. rewrite Ht, Hr.
  rewrite length_rev. rewrite !length_map. reflexivity.
Qed.

(** ** validation_pop_cert *)

(** A non-empty certificate stack over a chain of pairs has a resource
    set for its top certificate. *)
Lemma paired_nonempty state c :
  paired state c -> trusted state <> [] ->
  exists below cert top rest,
    trusted state = below ++ [cert] /\ rsrcs state = top :: rest.
Proof.
  intros [Ht Hr] Hne. destruct c as [|[cert top] c].
  - simpl in Ht. contradiction.
  - simpl in Ht, Hr. exists (rev (map fst c)), cert, top, (map snd c).
    split; assumption.
Qed.

(** C4. On an empty certificate stack [validation_pop_cert] reports a
    critical error, returns its nonzero code and changes nothing. On
    every state with a non-empty certificate stack that a sequence of
    operations reaches from a freshly prepared state, it removes exactly
    the top element of the certificate stack and of the resource stack
    and returns 0; so it does whenever both stacks are non-empty, where
    it also logs nothing. *)
Theorem validation_pop_cert_spec :
  forall L state,
    log_api_fails L ->
    (trusted state = [] ->
     fst (result (validation_pop_cert L state)) <> 0 /\
     snd (result (validation_pop_cert L state)) = state /\
     reports PR_CRIT (events (validation_pop_cert L state)) = true) /\
    (forall below cert top rest,
       trusted state = below ++ [cert] -> rsrcs state = top :: rest ->
       result (validation_pop_cert L state) =
         (0, set_rsrcs (set_trusted state below) rest) /\
       trusted (snd (result (validation_pop_cert L state))) = below /\
       rsrcs (snd (result (validation_pop_cert L state))) = rest /\
       events (validation_pop_cert L state) = []) /\
    (forall E t start ops,
       result (validation_prepare L E t) = (0, Some start) ->
       state = run L ops start ->
       trusted state <> [] ->
       exists below cert top rest,
         trusted state = below ++ [cert] /\ rsrcs state = top :: rest /\
         result (validation_pop_cert L state) =
           (0, set_rsrcs (set_trusted state below) rest)).
Proof.
  intros L state (_ & Hcrit & _). split; [|split].
  - intros H. rewrite (validation_pop_cert_empty L state H). simpl.
    repeat split; [exact Hcrit].
  - intros below cert top rest H Hr.
    rewrite (validation_pop_cert_both L state below cert top rest H Hr).
    repeat split.
  - intros E t start ops Hprep Hrun Hne.
    assert (Hs : snd (result (validation_prepare L E t)) = Some start)
      by (rewrite Hprep; reflexivity).
    apply validation_prepare_success in Hs.
    assert (Hp : paired start []) by (subst start; split; reflexivity).
    pose proof (run_paired L ops start [] Hp) as Hpaired.
    rewrite <- Hrun in Hpaired.
    destruct (paired_nonempty state _ Hpaired Hne)
      as (below & cert & top & rest & Ht & Hr).
    exists below, cert, top, rest. repeat split; try assumption.
    rewrite (validation_pop_cert_both L state below cert top rest Ht Hr).
    reflexivity.
Qed.

Lemma validation_pop_cert_spec_witness :
  fst (result (validation_pop_cert fort_log (state_of [] []))) <> 0 /\
  fst (result (validation_pop_cert fort_log
                 (run fort_log sample_ops (state_of [] [])))) = 0 /\
  result (validation_pop_cert fort_log
            (state_of ([ta_cert] ++ [ca_cert])
                      (some_resources :: [some_resources]))) =
  (0, state_of [ta_cert] [some_resources]).
Proof.
  split; [|split].
  - apply (proj1 (validation_pop_cert_spec fort_log (state_of [] [])
                    fort_log_fails)).
    reflexivity.
  - destruct (proj2 (proj2 (validation_pop_cert_spec fort_log
                              (run fort_log sample_ops (state_of [] []))
                              fort_log_fails))
                prepare_env_ok "ta.tal"%string (state_of [] []) sample_ops
                eq_refl eq_refl)
      as (below & cert & top & rest & _ & _ & Hpop).
    + vm_compute. discriminate.
    + rewrite Hpop. reflexivity.
  - apply (proj1 (proj2 (validation_pop_cert_spec fort_log
                    (state_of ([ta_cert] ++ [ca_cert])
                              (some_resources :: [some_resources]))
                    fort_log_fails))
             [ta_cert] ca_cert some_resources [some_resources]);
      reflexivity.
Defined.

(** ** The two stacks stay parallel *)

Lemma combine_fst_snd (c : chain) : combine (map fst c) (map snd c) = c.
Proof.
  induction c as [|[cert top] c IH]; simpl.
  - reflexivity.
  - rewrite IH. reflexivity.
Qed.

(** C5. Start from a freshly prepared state and apply any sequence of
    operations. The certificate stack and the resource stack then have the
    same length, and they hold, position by position, the pairs of the
    chain of the specification: the certificate stack (bottom first) is
    the certificates of the chain (top first) reversed, the resource stack
    (top first) is the resource sets of the chain, and pairing the two
    stacks from the top gives the chain back. Each resource set thus sits
    at the position of the certificate it was pushed with. *)
Theorem stacks_stay_parallel :
  forall L E t state ops,
    result (validation_prepare L E t) = (0, Some state) ->
    List.length (trusted (run L ops state)) =
      List.length (rsrcs (run L ops state)) /\
    trusted (run L ops state) = rev (map fst (chain_run ops [])) /\
    rsrcs (run L ops state) = map snd (chain_run ops []) /\
    combine (rev (trusted (run L ops state))) (rsrcs (run L ops state)) =
      chain_run ops [].
Proof.
  intros L E t state ops H.
  assert (Hs : snd (result (validation_prepare L E t)) = Some state)
    by (rewrite H; reflexivity).
  apply validation_prepare_success in Hs.
  assert (Hp : paired state []) by (subst state; split; reflexivity).
  pose proof (run_paired L ops state [] Hp) as Hrun.
  split; [exact (paired_length _ _ Hrun)|].
  destruct Hrun as [Ht Hr]. repeat split; try assumption.
  rewrite Ht, Hr, rev_involutive. apply combine_fst_snd.
Qed.

Lemma stacks_stay_parallel_witness :
  List.length (trusted (run fort_log sample_ops (state_of [] []))) =
    List.length (rsrcs (run fort_log sample_ops (state_of [] []))) /\
  trusted (run fort_log sample_ops (state_of [] [])) = [ta_cert] /\
  rsrcs (run fort_log sample_ops (state_of [] [])) = [some_resources] /\
  combine (rev (trusted (run fort_log sample_ops (state_of [] []))))
          (rsrcs (run fort_log sample_ops (state_of [] []))) =
    [(ta_cert, some_resources)].
Proof.
  exact (stacks_stay_parallel fort_log prepare_env_ok "ta.tal"%string
           (state_of [] []) sample_ops eq_refl).
Defined.

(** ** The public key status *)

Lemma validation_push_cert_pubkey_state L E state cert is_ta :
  pubkey_state (snd (result (validation_push_cert L E state cert is_ta))) =
  pubkey_state state.
Proof.
  unfold validation_push_cert.
  destruct (resources_create_ok E); simpl; [|reflexivity].
  destruct (certificate_get_resources E cert resources_create)
    as [error computed].
  destruct (error =? 0); simpl; [|reflexivity].
  destruct (is_ta && resources_empty computed); simpl; [reflexivity|].
  destruct (sk_X509_push (sk_X509_push_ok E) (trusted state) cert)
    as [sk ok].
  destruct (ok <=? 0); reflexivity.
Qed.

Lemma validation_pop_cert_pubkey_state L state :
  pubkey_state (snd (result (validation_pop_cert L state))) =
  pubkey_state state.
Proof.
  unfold validation_pop_cert.
  destruct (sk_X509_pop (trusted state)) as [[cert|] sk]; [|reflexivity].
  simpl. destruct (rsrcs state); reflexivity.
Qed.

Lemma exec_pubkey_state L o state :
  is_pubkey_setter o = false ->
  pubkey_state (exec L o state) = pubkey_state state.
Proof.
  destruct o; simpl; intros H; try reflexivity; try discriminate.
  - apply validation_push_cert_pubkey_state.
  - apply validation_pop_cert_pubkey_state.
Qed.

Lemma run_pubkey_state L ops :
  forall state,
    forallb (fun o => negb (is_pubkey_setter o)) ops = true ->
    pubkey_state (run L ops state) = pubkey_state state.
Proof.
  induction ops as [|o ops IH]; intros state H.
  - reflexivity.
  - simpl in H. apply andb_prop in H. destruct H as [Ho Hops].
    simpl. rewrite (IH _ Hops). apply exec_pubkey_state.
    apply negb_true_iff. exact Ho.
Qed.

(** C9. The state that [validation_prepare] returns has the status
    Untested. No operation other than the two setters changes the status,
    alone or in a sequence, and the setters make it Valid and Invalid. *)
Theorem pubkey_state_changes_only_through_setters :
  forall L E t state,
    result (validation_prepare L E t) = (0, Some state) ->
    validation_pubkey_state state = PKS_UNTESTED /\
    (forall o s,
       is_pubkey_setter o = false ->
       validation_pubkey_state (exec L o s) = validation_pubkey_state s) /\
    (forall ops,
       forallb (fun o => negb (is_pubkey_setter o)) ops = true ->
       validation_pubkey_state (run L ops state) = PKS_UNTESTED) /\
    (forall s,
       validation_pubkey_state (validation_pubkey_valid s) = PKS_VALID /\
       validation_pubkey_state (validation_pubkey_invalid s) = PKS_INVALID).
Proof.
  intros L E t state H.
  assert (Hs : snd (result (validation_prepare L E t)) = Some state)
    by (rewrite H; reflexivity).
  apply validation_prepare_success in Hs.
  assert (H0 : pubkey_state state = PKS_UNTESTED)
    by (subst state; reflexivity).
  unfold validation_pubkey_state. repeat split.
  - exact H0.
  - intros o s Ho. apply exec_pubkey_state. exact Ho.
  - intros ops Hops. rewrite (run_pubkey_state L ops state Hops). exact H0.
Qed.

Lemma pubkey_state_changes_only_through_setters_witness :
  validation_pubkey_state (state_of [] []) = PKS_UNTESTED /\
  validation_pubkey_state (run fort_log sample_ops (state_of [] [])) =
    PKS_UNTESTED.
Proof.
  destruct (pubkey_state_changes_only_through_setters fort_log
              prepare_env_ok "ta.tal"%string (state_of [] []) eq_refl)
    as (H0 & _ & Hrun & _).
  split.
  - exact H0.
  - apply Hrun. reflexivity.
Defined.

(** ** hash_validate_file *)

Lemma to_N_inj x y : Byte.to_N x = Byte.to_N y -> x = y.
Proof.
  intros H. pose proof (Byte.of_to_N x) as Hx. rewrite H in Hx.
  rewrite Byte.of_to_N in Hx. congruence.
Qed.

Lemma memcmp_eq :
  forall a b,
    List.length a = List.length b ->
    (memcmp a b (List.length a) = 0 <-> a = b).
Proof.
  induction a as [|x a IH]; intros [|y b] Hlen; simpl in *; try discriminate.
  - split; reflexivity.
  - injection Hlen as Hlen. destruct (Byte.eqb x y) eqn:Hxy.
    + apply Byte.byte_dec_bl in Hxy. subst y. rewrite (IH b Hlen).
      split; congruence.
    + apply Byte.eqb_false in Hxy. split.
      * intros H. exfalso. apply Hxy. apply to_N_inj. lia.
      * congruence.
Qed.

(** [hash_matches] compares byte for byte: same length, same bytes. *)
Lemma hash_matches_eq expected actual :
  hash_matches expected (List.length expected) actual (List.length actual)
    = true <-> expected = actual.
Proof.
  unfold hash_matches. rewrite andb_true_iff, Nat.eqb_eq, Z.eqb_eq. split.
  - intros [Hlen Hcmp]. apply (memcmp_eq _ _ Hlen). exact Hcmp.
  - intros H. subst actual. split; [reflexivity|].
    apply memcmp_eq; reflexivity.
Qed.

Lemma EVP_DigestUpdate_app ctx a b :
  EVP_DigestUpdate (EVP_DigestUpdate ctx a) b = EVP_DigestUpdate ctx (a ++ b).
Proof.
  unfold EVP_DigestUpdate. simpl. rewrite app_assoc. reflexivity.
Qed.

(** The loop on a stream that has neither indicator set: it absorbs all the
    unread bytes, block by block, unless the medium or the digest fails. *)
Lemma hash_file_loop_fresh L E n file ctx :
  f_eof file = false -> f_error file = 0 ->
  hash_file_loop L E n file ctx =
  if f_read_error file =? 0 then
    if EVP_DigestUpdate_ok E then
      (LoopDone (EVP_DigestUpdate ctx (f_unread file)), [])
    else (GotoEnd3 (crypto_err_ret L),
          [EvLog CRYPTO_ERR "EVP_DigestUpdate() failed" []])
  else if EVP_DigestUpdate_ok E
          || (List.length (f_unread file) <? Pos.to_nat n)%nat then
    (GotoEnd3 (f_read_error file),
     [EvLog PR_ERRNO "File reading error. Error message (apparently)"
        [ArgInt (f_read_error file)]])
  else (GotoEnd3 (crypto_err_ret L),
        [EvLog CRYPTO_ERR "EVP_DigestUpdate() failed" []]).
Proof.
  funelim (hash_file_loop L E n file ctx); intros Heof0 Herr0;
    repeat match goal with
           | H : sigmaI _ _ _ = _ |- _ => clear H
           | H : _ = hash_file_loop _ _ _ _ _ |- _ => clear H
           end.
  all: unfold fread in Hread;
    destruct (List.length (f_unread file) <? Pos.to_nat buffer_len)%nat
      eqn:Hshort; inversion Hread; subst; clear Hread;
    unfold ferror, feof in *; simpl in *.
  all: try (rewrite Herr0 in * );
    destruct (f_read_error file =? 0) eqn:Hmed;
    rewrite ?Heq, ?orb_true_r; simpl in *;
    try reflexivity; try discriminate; try congruence.
  all: rewrite H by (assumption || reflexivity);
    rewrite Heq; simpl; rewrite ?EVP_DigestUpdate_app, ?firstn_skipn;
    reflexivity.
Qed.

(** [hash_file] returns 0 with the digest of the whole file, or a nonzero
    code. *)
Lemma hash_file_result L E algorithm uri :
  log_api_fails L ->
  match EVP_get_digestbyname E algorithm with
  | None => fst (result (hash_file L E algorithm uri)) <> 0
  | Some md =>
      if hash_file_steps_ok E (local uri) then
        result (hash_file L E algorithm uri) =
          (0, md_digest md (contents (snd (file_open_ret E (local uri)))))
      else fst (result (hash_file L E algorithm uri)) <> 0
  end.
Proof.
  intros (Herr & Hcrit & Hcrypto & Hnomem).
  unfold hash_file, hash_file_steps_ok, get_md, file_open.
  destruct (EVP_get_digestbyname E algorithm) as [md|]; simpl.
  2: { discriminate. }
  destruct (file_open_ret E (local uri)) as [error d]. simpl.
  destruct (error =? 0) eqn:Hopen; simpl.
  2: { apply Z.eqb_neq in Hopen. exact Hopen. }
  destruct (buffer_malloc_ok E); simpl.
  2: { rewrite !andb_false_r. simpl. exact Hnomem. }
  destruct (EVP_MD_CTX_new_ok E); simpl.
  2: { rewrite !andb_false_r. simpl. exact Hnomem. }
  destruct (EVP_DigestInit_ex_ok E); simpl.
  2: { rewrite !andb_false_r. simpl. exact Hcrypto. }
  rewrite hash_file_loop_fresh by reflexivity. simpl.
  destruct (read_error d =? 0) eqn:Hread; simpl.
  - destruct (EVP_DigestUpdate_ok E); simpl; [|exact Hcrypto].
    destruct (EVP_DigestFinal_ex_ok E); simpl; [|exact Hcrypto].
    reflexivity.
  - apply Z.eqb_neq in Hread.
    destruct (EVP_DigestUpdate_ok E
              || (List.length (contents d) <? Pos.to_nat (st_blksize d))%nat);
      simpl; assumption.
Qed.

(** C6, as the code has it. [hash_validate_file] returns 0 exactly when
    the expected BIT STRING has no unused bits, the digest algorithm is
    known, the file opens and reads to its end, the read buffer and the
    digest context are allocated, the digest operations succeed, and the
    digest of the whole contents of the file equals the expected bytes
    (same length, same bytes). In particular a digest that differs, or a
    read failure, gives a nonzero result. *)
Theorem hash_validate_file_accepts_iff :
  forall L E algorithm uri expected,
    log_api_fails L ->
    (result (hash_validate_file L E algorithm uri expected) = 0 <->
     bits_unused expected = 0 /\
     exists md,
       EVP_get_digestbyname E algorithm = Some md /\
       hash_file_steps_ok E (local uri) = true /\
       buf expected =
         md_digest md (contents (snd (file_open_ret E (local uri))))) /\
    (forall md,
       EVP_get_digestbyname E algorithm = Some md ->
       buf expected <>
         md_digest md (contents (snd (file_open_ret E (local uri)))) ->
       result (hash_validate_file L E algorithm uri expected) <> 0) /\
    (read_error (snd (file_open_ret E (local uri))) <> 0 ->
     result (hash_validate_file L E algorithm uri expected) <> 0).
Proof.
  intros L E algorithm uri expected HL.
  assert (Hiff :
    result (hash_validate_file L E algorithm uri expected) = 0 <->
    bits_unused expected = 0 /\
    exists md,
      EVP_get_digestbyname E algorithm = Some md /\
      hash_file_steps_ok E (local uri) = true /\
      buf expected =
        md_digest md (contents (snd (file_open_ret E (local uri))))).
  { pose proof (hash_file_result L E algorithm uri HL) as Hfile.
    destruct HL as (Herr & _).
    unfold hash_validate_file.
    destruct (bits_unused expected =? 0) eqn:Hbits; simpl.
    2: { apply Z.eqb_neq in Hbits. split.
         - intros H. contradiction.
         - intros [H _]. contradiction. }
    apply Z.eqb_eq in Hbits.
    unfold result in *. unfold bind at 1.
    destruct (hash_file L E algorithm uri) as [[error actual] t]. simpl in *.
    destruct (EVP_get_digestbyname E algorithm) as [md|].
    2: { apply Z.eqb_neq in Hfile. rewrite Hfile. simpl. split.
         - intros H. apply Z.eqb_neq in Hfile. contradiction.
         - intros (_ & md & Hmd & _). discriminate. }
    destruct (hash_file_steps_ok E (local uri)).
    2: { apply Z.eqb_neq in Hfile. rewrite Hfile. simpl. split.
         - intros H. apply Z.eqb_neq in Hfile. contradiction.
         - intros (_ & md' & _ & Hsteps & _). discriminate. }
    injection Hfile as Herror Hactual. subst error actual. simpl.
    unfold size.
    destruct (hash_matches (buf expected) (List.length (buf expected)) _ _)
      eqn:Hmatch; simpl.
    - apply hash_matches_eq in Hmatch. split.
      + intros _. split; [exact Hbits|]. exists md. repeat split.
        exact Hmatch.
      + reflexivity.
    - split.
      + intros H. contradiction.
      + intros (_ & md' & Hmd & _ & Heq). injection Hmd as Hmd. subst md'.
        apply hash_matches_eq in Heq. congruence. }
  split; [exact Hiff|]. split.
  - intros md Hmd Hne H0. apply Hiff in H0.
    destruct H0 as (_ & md' & Hmd' & _ & Heq). congruence.
  - intros Hread H0. apply Hiff in H0.
    destruct H0 as (_ & md' & _ & Hsteps & _).
    unfold hash_file_steps_ok in Hsteps.
    rewrite !andb_true_iff in Hsteps.
    destruct Hsteps as [[[[[[_ Hclean] _] _] _] _] _].
    apply Z.eqb_eq in Hclean. contradiction.
Qed.

Lemma hash_validate_file_accepts_iff_witness :
  result (hash_validate_file fort_log hash_env_ok "sha256" sample_uri
            expected_hash) = 0.
Proof.
  apply (proj1 (hash_validate_file_accepts_iff fort_log hash_env_ok "sha256"
                  sample_uri expected_hash fort_log_fails)).
  split.
  - reflexivity.
  - exists toy_md. repeat split.
Defined.

(** C6, as stated, fails. The algorithm is known, the file opens and
    reads, and its digest equals the expected bytes, yet the result is not
    0: once because the expected BIT STRING has unused bits, once because
    the read buffer cannot be allocated. *)
Lemma hash_validate_file_rejects_matching_digest :
  EVP_get_digestbyname hash_env_ok "sha256" = Some toy_md /\
  file_open_ret hash_env_ok (local sample_uri) = (0, sample_file) /\
  read_error sample_file = 0 /\
  md_digest toy_md (contents sample_file) = buf expected_hash_unused_bits /\
  md_digest toy_md (contents sample_file) = buf expected_hash /\
  result (hash_validate_file fort_log hash_env_ok "sha256" sample_uri
            expected_hash_unused_bits) <> 0 /\
  result (hash_validate_file fort_log hash_env_enomem "sha256" sample_uri
            expected_hash) <> 0.
Proof.
  repeat split; vm_compute; discriminate.
Qed.

(** C10. When the expected hash has a nonzero count of unused bits,
    [hash_validate_file] reports "Hash string has unused bits." and
    returns the nonzero code of [pr_err], whatever the algorithm, the URI
    and the files are: that message is all it does, so no file is opened
    and nothing is hashed. *)
Theorem hash_validate_file_unused_bits :
  forall L E algorithm uri expected,
    log_api_fails L ->
    bits_unused expected <> 0 ->
    hash_validate_file L E algorithm uri expected =
      (pr_err_ret L, [EvLog PR_ERR "Hash string has unused bits." []]) /\
    result (hash_validate_file L E algorithm uri expected) <> 0 /\
    (forall path,
       ~ In (EvFileOpen path)
            (events (hash_validate_file L E algorithm uri expected))).
Proof.
  intros L E algorithm uri expected (Herr & _) Hbits.
  unfold hash_validate_file. apply Z.eqb_neq in Hbits. rewrite Hbits.
  simpl. repeat split.
  - exact Herr.
  - intros path [H|[]]. discriminate.
Qed.

Lemma hash_validate_file_unused_bits_witness :
  hash_validate_file fort_log hash_env_ok "sha256" sample_uri
    expected_hash_unused_bits =
  (- EINVAL, [EvLog PR_ERR "Hash string has unused bits." []]).
Proof.
  apply (hash_validate_file_unused_bits fort_log hash_env_ok "sha256"
           sample_uri expected_hash_unused_bits fort_log_fails).
  vm_compute. discriminate.
Defined.

(** The events of an accepted file: it is opened, read and closed. *)
Example hash_validate_file_sample_events :
  hash_validate_file fort_log hash_env_ok "sha256" sample_uri expected_hash =
  (0, [EvFileOpen "repository/rpki.example/repo/a.roa";
       EvFileClose "repository/rpki.example/repo/a.roa"]).
Proof. vm_compute. reflexivity. Qed.

(** ** notify_clients *)

Lemma send_notify_best_effort E c serial :
  send_notify E c serial = (0, notified E serial c).
Proof.
  unfold send_notify, notified, send_serial_notify_pdu.
  destruct (send_serial_notify_pdu_ret E (fd c) (rtr_version c) serial =? 0)
    eqn:Hsend; io_unfold; simpl; rewrite Hsend; reflexivity.
Qed.

Lemma clients_foreach_send_notify E serial table :
  clients_foreach (send_notify E) serial table =
  (0, flat_map (notified E serial) table).
Proof.
  induction table as [|c rest IH]; simpl.
  - reflexivity.
  - rewrite send_notify_best_effort. unfold bind. simpl. rewrite IH.
    reflexivity.
Qed.

Lemma notified_sends E serial c :
  In (EvSerialNotify (fd c) (rtr_version c) serial) (notified E serial c).
Proof. left. reflexivity. Qed.

(** C7, as the code has it. [notify_clients] reads the last serial once.
    When that read succeeds, it sends a Serial Notify PDU with that serial
    to every registered client, in registry order; a failed send leaves a
    warning in the log right after the PDU and the walk goes on to the
    remaining clients; nothing else happens (no client is closed or
    removed) and the result is 0. When the read fails, its error code is
    the result and no PDU is sent. *)
Theorem notify_clients_best_effort :
  forall E error serial,
    get_last_serial_number_ret E = (error, serial) ->
    (error = 0 ->
     notify_clients E =
       (0, EvGetLastSerialNumber :: flat_map (notified E serial) (clients E))
     /\
     (forall c, In c (clients E) ->
        In (EvSerialNotify (fd c) (rtr_version c) serial)
           (events (notify_clients E))) /\
     (forall c, In c (clients E) ->
        send_serial_notify_pdu_ret E (fd c) (rtr_version c) serial <> 0 ->
        In (EvLog PR_WARN "Error code %d sending notify PDU to client."
              [ArgInt (send_serial_notify_pdu_ret E (fd c) (rtr_version c)
                         serial)])
           (events (notify_clients E)))) /\
    (error <> 0 -> notify_clients E = (error, [EvGetLastSerialNumber])).
Proof.
  intros E error serial Hserial.
  unfold notify_clients, get_last_serial_number. rewrite Hserial.
  split; intros Herror.
  - subst error. io_unfold. simpl.
    rewrite clients_foreach_send_notify. split; [reflexivity|].
    simpl. split; intros c Hc.
    + right. apply in_flat_map. exists c. split; [exact Hc|].
      apply notified_sends.
    + intros Hfail. right. apply in_flat_map. exists c. split; [exact Hc|].
      unfold notified. apply Z.eqb_neq in Hfail. rewrite Hfail.
      right. left. reflexivity.
  - apply Z.eqb_neq in Herror. io_unfold. simpl. rewrite Herror. reflexivity.
Qed.

Lemma notify_clients_best_effort_witness :
  notify_clients notify_env_ok =
  (0, [EvGetLastSerialNumber;
       EvSerialNotify 7 1 42%N;
       EvLog PR_WARN "Error code %d sending notify PDU to client."
         [ArgInt 32];
       EvSerialNotify 9 0 42%N]).
Proof.
  apply (proj1 (notify_clients_best_effort notify_env_ok 0 42%N eq_refl)).
  reflexivity.
Defined.

(** C7, as stated, fails: when the serial cannot be read, [notify_clients]
    returns that error and sends nothing to the registered clients. *)
Lemma notify_clients_without_serial :
  clients notify_env_no_serial = [router_a; router_b] /\
  notify_clients notify_env_no_serial = (- EAGAIN, [EvGetLastSerialNumber]) /\
  result (notify_clients notify_env_no_serial) <> 0.
Proof.
  repeat split; vm_compute; discriminate.
Qed.

(** ** Canonicalization is idempotent *)

Lemma sorted_from_weaken k k' l :
  (k' <= k)%N -> sorted_from k l -> sorted_from k' l.
Proof.
  destruct l as [|h t]; simpl.
  - trivial.
  - intros Hk [Hh Ht]. split; [lia | exact Ht].
Qed.

Lemma insert_range_sorted r l k :
  (k <= fst r)%N -> sorted_from k l -> sorted_from k (insert_range r l).
Proof.
  revert k. induction l as [|h t IH]; intros k Hr Hl; simpl in *.
  - split; [exact Hr | exact I].
  - destruct Hl as [Hh Ht]. destruct (fst r <=? fst h)%N eqn:Hle.
    + apply N.leb_le in Hle. simpl. repeat split; assumption.
    + apply N.leb_gt in Hle. simpl. split; [exact Hh|].
      apply IH; [lia | exact Ht].
Qed.

Lemma sort_ranges_sorted l : sorted_from 0 (sort_ranges l).
Proof.
  induction l as [|h t IH]; simpl.
  - exact I.
  - apply insert_range_sorted; [lia | exact IH].
Qed.

(** Fusing a sorted list gives a list in canonical form, which still
    begins at the start of [cur]. *)
Lemma fuse_ranges_separated :
  forall l cur,
    sorted_from (fst cur) l ->
    exists c rest,
      fuse_ranges cur l = c :: rest /\ fst c = fst cur /\ separated c rest.
Proof.
  induction l as [|h t IH]; intros cur Hsorted; simpl in *.
  - exists cur, []. repeat split.
  - destruct Hsorted as [Hh Ht].
    destruct (fst h <=? snd cur + 1)%N eqn:Htouch.
    + destruct (IH (fst cur, N.max (snd cur) (snd h))) as (c & rest & H).
      * simpl. apply (sorted_from_weaken (fst h)); assumption.
      * exists c, rest. exact H.
    + apply N.leb_gt in Htouch.
      destruct (IH h Ht) as (c & rest & Hfuse & Hstart & Hsep).
      exists cur, (c :: rest). rewrite Hfuse. repeat split.
      * rewrite Hstart. exact Hh.
      * rewrite Hstart. exact Htouch.
      * exact Hsep.
Qed.

Lemma canonicalize_ranges_canonical l : canonical (canonicalize_ranges l).
Proof.
  unfold canonicalize_ranges.
  pose proof (sort_ranges_sorted l) as Hsorted.
  destruct (sort_ranges l) as [|h t]; simpl.
  - exact I.
  - destruct Hsorted as [_ Ht].
    destruct (fuse_ranges_separated t h Ht) as (c & rest & Hfuse & _ & Hsep).
    rewrite Hfuse. exact Hsep.
Qed.

Lemma sort_ranges_separated :
  forall t h, separated h t -> sort_ranges (h :: t) = h :: t.
Proof.
  induction t as [|h' t IH]; intros h Hsep.
  - reflexivity.
  - destruct Hsep as (Hle & _ & Hsep).
    change (sort_ranges (h :: h' :: t))
      with (insert_range h (sort_ranges (h' :: t))).
    rewrite (IH h' Hsep). simpl.
    apply N.leb_le in Hle. rewrite Hle. reflexivity.
Qed.

Lemma fuse_ranges_separated_id :
  forall t h, separated h t -> fuse_ranges h t = h :: t.
Proof.
  induction t as [|h' t IH]; intros h Hsep; simpl.
  - reflexivity.
  - destruct Hsep as (_ & Hgap & Hsep).
    apply N.leb_gt in Hgap. rewrite Hgap. rewrite (IH h' Hsep). reflexivity.
Qed.

Lemma canonicalize_ranges_fixes_canonical l :
  canonical l -> canonicalize_ranges l = l.
Proof.
  destruct l as [|h t]; intros Hc.
  - reflexivity.
  - unfold canonicalize_ranges. rewrite (sort_ranges_separated t h Hc).
    apply fuse_ranges_separated_id. exact Hc.
Qed.

Lemma canonicalize_ranges_idempotent l :
  canonicalize_ranges (canonicalize_ranges l) = canonicalize_ranges l.
Proof.
  apply canonicalize_ranges_fixes_canonical.
  apply canonicalize_ranges_canonical.
Qed.

Lemma ranges_of_family_app f a b :
  ranges_of_family f (a ++ b) = ranges_of_family f a ++ ranges_of_family f b.
Proof.
  unfold ranges_of_family. rewrite filter_app, map_app. reflexivity.
Qed.

Lemma ranges_of_family_same f l : ranges_of_family f (ip_ranges_in f l) = l.
Proof.
  unfold ranges_of_family, ip_ranges_in.
  induction l as [|[s e] l IH]; simpl.
  - reflexivity.
  - destruct f; simpl; rewrite IH; reflexivity.
Qed.

Lemma ranges_of_family_other f g l :
  family_eqb g f = false -> ranges_of_family f (ip_ranges_in g l) = [].
Proof.
  intros H. unfold ranges_of_family, ip_ranges_in.
  induction l as [|r l IH]; simpl.
  - reflexivity.
  - rewrite H. exact IH.
Qed.

Lemma canonicalize_ips_idempotent l :
  canonicalize_ips (canonicalize_ips l) = canonicalize_ips l.
Proof.
  unfold canonicalize_ips at 1 3.
  unfold canonicalize_ips. rewrite !ranges_of_family_app.
  rewrite !ranges_of_family_same.
  rewrite (ranges_of_family_other V4 V6), (ranges_of_family_other V6 V4)
    by reflexivity.
  rewrite app_nil_r. simpl.
  rewrite !canonicalize_ranges_idempotent. reflexivity.
Qed.

Lemma as_ranges_roundtrip (l : list range) :
  map (fun a => (as_min a, as_max a))
      (map (fun r : range => {| as_min := fst r; as_max := snd r |}) l) = l.
Proof.
  induction l as [|[s e] l IH]; simpl.
  - reflexivity.
  - rewrite IH. reflexivity.
Qed.

Lemma canonicalize_asns_idempotent l :
  canonicalize_asns (canonicalize_asns l) = canonicalize_asns l.
Proof.
  unfold canonicalize_asns. rewrite as_ranges_roundtrip.
  rewrite canonicalize_ranges_idempotent. reflexivity.
Qed.

(** C8. Canonicalizing a resource set twice gives the same set as
    canonicalizing it once, for every pair of a sequence of IP ranges and
    a sequence of AS ranges. *)
Theorem canonicalize_idempotent :
  forall X, canonicalize (canonicalize X) = canonicalize X.
Proof.
  intros X. unfold canonicalize. simpl.
  rewrite canonicalize_ips_idempotent, canonicalize_asns_idempotent.
  reflexivity.
Qed.

(** Out-of-order, overlapping, adjacent and equal ranges on a concrete
    set: the IPv4 ranges are sorted and fused, the IPv6 range follows, and
    the AS ranges 64500-64510, 64511-64520 and 64500-64510 become one. *)
Example canonicalize_sample :
  canonicalize
    {| ips := [{| ip_family := V4; ip_start := 10; ip_end := 20 |};
               {| ip_family := V6; ip_start := 7; ip_end := 9 |};
               {| ip_family := V4; ip_start := 5; ip_end := 12 |};
               {| ip_family := V4; ip_start := 40; ip_end := 50 |};
               {| ip_family := V4; ip_start := 21; ip_end := 30 |}];
       asns := [{| as_min := 64500; as_max := 64510 |};
                {| as_min := 64511; as_max := 64520 |};
                {| as_min := 64500; as_max := 64510 |};
                {| as_min := 64530; as_max := 64530 |}] |} =
    {| ips := [{| ip_family := V4; ip_start := 5; ip_end := 30 |};
               {| ip_family := V4; ip_start := 40; ip_end := 50 |};
               {| ip_family := V6; ip_start := 7; ip_end := 9 |}];
       asns := [{| as_min := 64500; as_max := 64520 |};
                {| as_min := 64530; as_max := 64530 |}] |}.
Proof. vm_compute. reflexivity. Qed.

(* ===================================================================== *)
(** * Further properties of state.c                                       *)
(* ===================================================================== *)

(** X1. [validation_prepare] returns 0 exactly when the allocation of the
    state, [state_store], [X509_STORE_new], [sk_X509_new_null] and
    [restack_create] all succeed. It then returns the fresh state of the
    given TAL, with both stacks empty, and logs nothing; in every other
    case it returns no state. *)
Theorem validation_prepare_succeeds_iff :
  forall L E t,
    log_api_fails L ->
    (fst (result (validation_prepare L E t)) = 0 <->
     malloc_ok E = true /\ state_store_ret E = 0 /\
     X509_STORE_new_ok E = true /\ sk_X509_new_null_ok E = true /\
     restack_create_ok E = true) /\
    (fst (result (validation_prepare L E t)) = 0 ->
     validation_prepare L E t =
       ((0, Some {| tal := t;
                    store := X509_STORE_set_verify_cb X509_STORE_new cb;
                    trusted := []; rsrcs := [];
                    pubkey_state := PKS_UNTESTED |}), [])) /\
    (fst (result (validation_prepare L E t)) <> 0 ->
     snd (result (validation_prepare L E t)) = None).
Proof.
  intros L E t (_ & _ & Hcrypto & _).
  unfold validation_prepare.
  destruct (malloc_ok E), (state_store_ret E =? 0) eqn:Hstore,
    (X509_STORE_new_ok E), (sk_X509_new_null_ok E), (restack_create_ok E);
    io_unfold; simpl;
    match goal with
    | Hs : (_ =? _) = true |- _ => apply Z.eqb_eq in Hs
    | Hs : (_ =? _) = false |- _ => apply Z.eqb_neq in Hs
    end;
    (split; [split; [intros H | intros (H1 & H2 & H3 & H4 & H5)]
            | split; intros H]);
    try discriminate; try contradiction; try congruence;
    try reflexivity; try (repeat split; assumption).
Qed.

Lemma validation_prepare_succeeds_iff_witness :
  fst (result (validation_prepare fort_log prepare_env_ok "ta.tal"%string)) = 0 /\
  snd (result (validation_prepare fort_log prepare_env_no_store "ta.tal"%string))
    = None.
Proof.
  split.
  - apply (proj1 (validation_prepare_succeeds_iff fort_log prepare_env_ok
                    "ta.tal"%string fort_log_fails)).
    repeat split.
  - apply (proj2 (proj2 (validation_prepare_succeeds_iff fort_log
                           prepare_env_no_store "ta.tal"%string fort_log_fails))).
    vm_compute. discriminate.
Defined.

(** X2. [validation_push_cert] is all or nothing: whenever it returns a
    nonzero code, whatever the reason (no memory, a certificate whose
    resources cannot be read, a trust anchor without resources, a stack
    that cannot grow), the state it leaves is the state it was given. *)
Theorem validation_push_cert_failure_keeps_state :
  forall L E state cert is_ta,
    fst (result (validation_push_cert L E state cert is_ta)) <> 0 ->
    snd (result (validation_push_cert L E state cert is_ta)) = state.
Proof.
  intros L E state cert is_ta Hfail.
  pose proof (validation_push_cert_cases L E state cert is_ta) as H.
  cbv zeta in H.
  destruct (resources_create_ok E &&
            (fst (certificate_get_resources E cert resources_create) =? 0)).
  - destruct (is_ta && resources_empty
                (snd (certificate_get_resources E cert resources_create))).
    + rewrite H. reflexivity.
    + destruct (sk_X509_push_ok E).
      * rewrite H in Hfail. simpl in Hfail. contradiction.
      * rewrite H. simpl. destruct state. reflexivity.
  - destruct H as [_ H]. exact H.
Qed.

Lemma validation_push_cert_failure_keeps_state_witness :
  snd (result (validation_push_cert fort_log push_env_full
                 (state_of [ta_cert] [some_resources]) ca_cert false)) =
  state_of [ta_cert] [some_resources].
Proof.
  apply (validation_push_cert_failure_keeps_state fort_log push_env_full
           (state_of [ta_cert] [some_resources]) ca_cert false).
  vm_compute. discriminate.
Defined.

(** X3. [validation_push_cert] returns 0 exactly when the resource set is
    allocated, [certificate_get_resources] succeeds, the certificate is not
    a trust anchor with an empty resource set, and the certificate stack
    grows. So a certificate that is not a trust anchor is pushed even with
    an empty resource set. A successful push logs nothing. *)
Theorem validation_push_cert_succeeds_iff :
  forall L E state cert is_ta,
    log_api_fails L ->
    let computed := certificate_get_resources E cert resources_create in
    (fst (result (validation_push_cert L E state cert is_ta)) = 0 <->
     resources_create_ok E = true /\ fst computed = 0 /\
     (is_ta && resources_empty (snd computed)) = false /\
     sk_X509_push_ok E = true) /\
    (fst (result (validation_push_cert L E state cert is_ta)) = 0 ->
     events (validation_push_cert L E state cert is_ta) = []).
Proof.
  intros L E state cert is_ta (Herr & _ & Hcrypto & _) computed.
  unfold validation_push_cert. fold computed.
  destruct (resources_create_ok E); simpl.
  2: { split; [split|]; try discriminate. intros (H & _). discriminate. }
  destruct computed as [error set]. simpl.
  destruct (error =? 0) eqn:Herror; simpl.
  2: { apply Z.eqb_neq in Herror. split; [split|]; try contradiction.
       intros (_ & H & _). contradiction. }
  apply Z.eqb_eq in Herror.
  destruct (is_ta && resources_empty set); simpl.
  { split; [split|]; try contradiction. intros (_ & _ & H & _).
    discriminate. }
  unfold sk_X509_push. destruct (sk_X509_push_ok E); simpl.
  - pose proof (sk_X509_num_push (trusted state) cert) as Hnum.
    apply Z.leb_gt in Hnum. rewrite Hnum. simpl.
    split; [split|]; try reflexivity. intros _. repeat split. exact Herror.
  - split; [split|]; try contradiction. intros (_ & _ & _ & H).
    discriminate.
Qed.

Lemma validation_push_cert_succeeds_iff_witness :
  fst (result (validation_push_cert fort_log push_env_no_resources
                 (state_of [ta_cert] [some_resources]) ca_cert false)) = 0.
Proof.
  apply (proj1 (validation_push_cert_succeeds_iff fort_log
                  push_env_no_resources
                  (state_of [ta_cert] [some_resources]) ca_cert false
                  fort_log_fails)).
  repeat split.
Defined.

(** X4. A successful [validation_push_cert] followed by
    [validation_pop_cert] gives back exactly the state before the push:
    the pop returns 0 and logs nothing. *)
Theorem validation_push_then_pop :
  forall L E state cert is_ta,
    log_api_fails L ->
    fst (result (validation_push_cert L E state cert is_ta)) = 0 ->
    validation_pop_cert L
      (snd (result (validation_push_cert L E state cert is_ta))) =
    ((0, state), []).
Proof.
  intros L E state cert is_ta (Herr & _ & Hcrypto & _) Hok.
  pose proof (validation_push_cert_cases L E state cert is_ta) as H.
  cbv zeta in H.
  destruct (resources_create_ok E &&
            (fst (certificate_get_resources E cert resources_create) =? 0)).
  - destruct (is_ta && resources_empty
                (snd (certificate_get_resources E cert resources_create))).
    + rewrite H in Hok. simpl in Hok. contradiction.
    + destruct (sk_X509_push_ok E).
      * rewrite H. simpl.
        rewrite (validation_pop_cert_both L _ (trusted state) cert
                   (snd (certificate_get_resources E cert resources_create))
                   (rsrcs state)) by reflexivity.
        destruct state. reflexivity.
      * rewrite H in Hok. simpl in Hok. contradiction.
  - destruct H as [H _]. contradiction.
Qed.

Lemma validation_push_then_pop_witness :
  validation_pop_cert fort_log
    (snd (result (validation_push_cert fort_log push_env_ok
                    (state_of [ta_cert] [some_resources]) ca_cert false))) =
  ((0, state_of [ta_cert] [some_resources]), []).
Proof.
  apply (validation_push_then_pop fort_log push_env_ok
           (state_of [ta_cert] [some_resources]) ca_cert false
           fort_log_fails).
  reflexivity.
Defined.

Lemma sk_X509_value_top below cert :
  sk_X509_value (below ++ [cert]) (sk_X509_num (below ++ [cert]) - 1) =
  Some cert.
Proof.
  unfold sk_X509_value, sk_X509_num. rewrite length_app. simpl.
  replace (Z.of_nat (List.length below + 1) - 1)
    with (Z.of_nat (List.length below)) by lia.
  rewrite Nat2Z.id.
  assert (Hlo : (0 <=? Z.of_nat (List.length below)) = true)
    by (apply Z.leb_le; lia).
  assert (Hhi : (Z.of_nat (List.length below) <?
                 Z.of_nat (List.length below + 1)) = true)
    by (apply Z.ltb_lt; lia).
  rewrite Hlo, Hhi. simpl.
  rewrite nth_error_app2 by lia. rewrite Nat.sub_diag. reflexivity.
Qed.

Lemma paired_peeks state c :
  paired state c ->
  validation_peek_cert state = option_map fst (hd_error c) /\
  validation_peek_resource state = option_map snd (hd_error c).
Proof.
  intros [Ht Hr]. unfold validation_peek_cert, validation_peek_resource.
  rewrite Ht, Hr. destruct c as [|[cert top] c]; simpl.
  - split; reflexivity.
  - split; [apply sk_X509_value_top | reflexivity].
Qed.

(** X5. After a successful [validation_push_cert], [validation_peek_cert]
    returns the certificate just pushed and [validation_peek_resource] the
    resource set computed for it. *)
Theorem validation_peek_after_push :
  forall L E state cert is_ta,
    log_api_fails L ->
    fst (result (validation_push_cert L E state cert is_ta)) = 0 ->
    validation_peek_cert
      (snd (result (validation_push_cert L E state cert is_ta))) =
      Some cert /\
    validation_peek_resource
      (snd (result (validation_push_cert L E state cert is_ta))) =
      Some (snd (certificate_get_resources E cert resources_create)).
Proof.
  intros L E state cert is_ta (Herr & _ & Hcrypto & _) Hok.
  pose proof (validation_push_cert_cases L E state cert is_ta) as H.
  cbv zeta in H.
  destruct (resources_create_ok E &&
            (fst (certificate_get_resources E cert resources_create) =? 0)).
  - destruct (is_ta && resources_empty
                (snd (certificate_get_resources E cert resources_create))).
    + rewrite H in Hok. simpl in Hok. contradiction.
    + destruct (sk_X509_push_ok E).
      * rewrite H. simpl. split; [|reflexivity].
        unfold validation_peek_cert. simpl. apply sk_X509_value_top.
      * rewrite H in Hok. simpl in Hok. contradiction.
  - destruct H as [H _]. contradiction.
Qed.

Lemma validation_peek_after_push_witness :
  validation_peek_cert
    (snd (result (validation_push_cert fort_log push_env_ok
                    (state_of [ta_cert] [some_resources]) ca_cert false))) =
    Some ca_cert /\
  validation_peek_resource
    (snd (result (validation_push_cert fort_log push_env_ok
                    (state_of [ta_cert] [some_resources]) ca_cert false))) =
    Some some_resources.
Proof.
  apply (validation_peek_after_push fort_log push_env_ok
           (state_of [ta_cert] [some_resources]) ca_cert false
           fort_log_fails).
  reflexivity.
Defined.

(** X6. On every state reached from a freshly prepared one, the two peeks
    read the same entry of the chain: [validation_peek_cert] returns the
    certificate of the top pair and [validation_peek_resource] its
    resource set, and both return NULL exactly when the chain is empty (as
    it is right after [validation_prepare]). *)
Theorem validation_peeks_agree :
  forall L E t state ops,
    result (validation_prepare L E t) = (0, Some state) ->
    validation_peek_cert (run L ops state) =
      option_map fst (hd_error (chain_run ops [])) /\
    validation_peek_resource (run L ops state) =
      option_map snd (hd_error (chain_run ops [])) /\
    (validation_peek_cert (run L ops state) = None <->
     validation_peek_resource (run L ops state) = None).
Proof.
  intros L E t state ops H.
  assert (Hs : snd (result (validation_prepare L E t)) = Some state)
    by (rewrite H; reflexivity).
  apply validation_prepare_success in Hs.
  assert (Hp : paired state []) by (subst state; split; reflexivity).
  pose proof (run_paired L ops state [] Hp) as Hrun.
  destruct (paired_peeks _ _ Hrun) as [Hc Hr].
  rewrite Hc, Hr. repeat split.
  - destruct (hd_error (chain_run ops [])); simpl; intros H0;
      [discriminate | reflexivity].
  - destruct (hd_error (chain_run ops [])); simpl; intros H0;
      [discriminate | reflexivity].
Qed.

Lemma validation_peeks_agree_witness :
  validation_peek_cert (run fort_log sample_ops (state_of [] [])) =
    Some ta_cert /\
  validation_peek_resource (run fort_log sample_ops (state_of [] [])) =
    Some some_resources.
Proof.
  destruct (validation_peeks_agree fort_log prepare_env_ok "ta.tal"%string
              (state_of [] []) sample_ops eq_refl) as (Hc & Hr & _).
  split; [exact Hc | exact Hr].
Defined.

(** X7. Destroying a state reached from a freshly prepared one is silent
    exactly when every certificate pushed has been popped again (the chain
    is empty); otherwise the one error it logs carries the number of
    certificates still on the chain. *)
Theorem validation_destroy_after_run :
  forall L E t state ops,
    result (validation_prepare L E t) = (0, Some state) ->
    (chain_run ops [] = [] ->
     events (validation_destroy L (run L ops state)) = []) /\
    (chain_run ops [] <> [] ->
     events (validation_destroy L (run L ops state)) =
       [EvLog PR_ERR
          "Error: validation state has %d certificates. (0 expected)"
          [ArgInt (Z.of_nat (List.length (chain_run ops [])))]]).
Proof.
  intros L E t state ops H.
  assert (Hs : snd (result (validation_prepare L E t)) = Some state)
    by (rewrite H; reflexivity).
  apply validation_prepare_success in Hs.
  assert (Hp : paired state []) by (subst state; split; reflexivity).
  pose proof (run_paired L ops state [] Hp) as [Ht _].
  unfold validation_destroy, sk_X509_num. rewrite Ht.
  rewrite length_rev, length_map. split; intros Hc.
  - rewrite Hc. reflexivity.
  - destruct (chain_run ops []) as [|p c]; [contradiction|]. reflexivity.
Qed.

Lemma validation_destroy_after_run_witness :
  events (validation_destroy fort_log
            (run fort_log (sample_ops ++ [OpPopCert]) (state_of [] []))) = []
  /\
  events (validation_destroy fort_log
            (run fort_log sample_ops (state_of [] []))) =
    [EvLog PR_ERR
       "Error: validation state has %d certificates. (0 expected)"
       [ArgInt 1]].
Proof.
  split.
  - apply (proj1 (validation_destroy_after_run fort_log prepare_env_ok
                    "ta.tal"%string (state_of [] [])
                    (sample_ops ++ [OpPopCert]) eq_refl)).
    reflexivity.
  - apply (proj2 (validation_destroy_after_run fort_log prepare_env_ok
                    "ta.tal"%string (state_of [] []) sample_ops eq_refl)).
    vm_compute. discriminate.
Defined.

(** X8. A failing [validation_pop_cert] is not all or nothing: when the
    certificate stack is non-empty but the resource stack is empty, the
    top certificate is removed all the same, one critical message is
    logged and the code of [pr_crit] is returned. *)
Theorem validation_pop_cert_partial :
  forall L state below cert,
    trusted state = below ++ [cert] ->
    rsrcs state = [] ->
    result (validation_pop_cert L state) =
      (pr_crit_ret L, set_trusted state below) /\
    trusted (snd (result (validation_pop_cert L state))) = below /\
    events (validation_pop_cert L state) =
      [EvLog PR_CRIT "Attempted to pop empty resource stack" []].
Proof.
  intros L state below cert Ht Hr.
  unfold validation_pop_cert. rewrite Ht, sk_X509_pop_push. simpl.
  rewrite Hr. repeat split.
Qed.

Lemma validation_pop_cert_partial_witness :
  trusted (snd (result (validation_pop_cert fort_log
                          (state_of ([ta_cert] ++ [ca_cert]) [])))) =
  [ta_cert].
Proof.
  apply (validation_pop_cert_partial fort_log
           (state_of ([ta_cert] ++ [ca_cert]) []) [ta_cert] ca_cert);
    reflexivity.
Defined.

(** X9. The stacks and the public key status do not depend on each other:
    [validation_push_cert] and [validation_pop_cert] return the same code,
    log the same events and leave the same stacks whatever the status is,
    and they carry the status over. *)
Theorem stack_operations_frame_pubkey_state :
  forall L E state cert is_ta p,
    validation_push_cert L E (set_pubkey_state state p) cert is_ta =
      ((fst (result (validation_push_cert L E state cert is_ta)),
        set_pubkey_state
          (snd (result (validation_push_cert L E state cert is_ta))) p),
       events (validation_push_cert L E state cert is_ta)) /\
    validation_pop_cert L (set_pubkey_state state p) =
      ((fst (result (validation_pop_cert L state)),
        set_pubkey_state (snd (result (validation_pop_cert L state))) p),
       events (validation_pop_cert L state)).
Proof.
  intros L E state cert is_ta p. split.
  - unfold validation_push_cert.
    destruct (resources_create_ok E); simpl; [|reflexivity].
    destruct (certificate_get_resources E cert resources_create)
      as [error computed].
    destruct (error =? 0); simpl; [|reflexivity].
    destruct (is_ta && resources_empty computed); simpl; [reflexivity|].
    destruct (sk_X509_push (sk_X509_push_ok E) (trusted state) cert)
      as [sk ok].
    destruct (ok <=? 0); reflexivity.
  - unfold validation_pop_cert. simpl.
    destruct (sk_X509_pop (trusted state)) as [[top|] sk]; [|reflexivity].
    simpl. destruct (rsrcs state); reflexivity.
Qed.

(** X10. [cb] never makes the verification stricter than libcrypto: a
    nonzero verdict stays nonzero, whatever the error code in the context,
    and applying [cb] to its own result changes nothing. *)
Theorem cb_never_stricter :
  forall ok ctx,
    (ok <> 0 -> cb ok ctx <> 0) /\ cb (cb ok ctx) ctx = cb ok ctx.
Proof.
  intros ok ctx. unfold cb.
  destruct (X509_STORE_CTX_get_error ctx
            =? X509_V_ERR_UNHANDLED_CRITICAL_EXTENSION).
  - split; [intros _; discriminate | reflexivity].
  - split; [intros H; exact H | reflexivity].
Qed.

Lemma cb_never_stricter_witness :
  cb 1 {| ctx_error := X509_V_OK |} <> 0.
Proof.
  apply (proj1 (cb_never_stricter 1 {| ctx_error := X509_V_OK |})).
  discriminate.
Defined.

(* ===================================================================== *)
(** * Further properties of crypto/hash.c                                 *)
(* ===================================================================== *)

(** X11. [hash_file] closes what it opens, on every exit path. With an
    unknown algorithm it never touches the file system; when [file_open]
    fails it opens nothing and closes nothing more; when [file_open]
    succeeds, the file is closed exactly once, as the last thing the
    function does, whether hashing succeeded or not. *)
Theorem hash_file_closes_what_it_opens :
  forall L E algorithm uri,
    (EVP_get_digestbyname E algorithm = None ->
     filter is_file_event (events (hash_file L E algorithm uri)) = []) /\
    (EVP_get_digestbyname E algorithm <> None ->
     fst (file_open_ret E (local uri)) <> 0 ->
     hash_file L E algorithm uri =
       ((fst (file_open_ret E (local uri)), []),
        [EvFileOpen (local uri)])) /\
    (EVP_get_digestbyname E algorithm <> None ->
     fst (file_open_ret E (local uri)) = 0 ->
     filter is_file_event (events (hash_file L E algorithm uri)) =
       [EvFileOpen (local uri); EvFileClose (local uri)] /\
     exists before,
       events (hash_file L E algorithm uri) =
         before ++ [EvFileClose (local uri)]).
Proof.
  intros L E algorithm uri.
  unfold hash_file, get_md, file_open.
  destruct (EVP_get_digestbyname E algorithm) as [md|]; simpl.
  2: { split; [intros _; reflexivity|].
       split; intros Hne; exfalso; apply Hne; reflexivity. }
  destruct (file_open_ret E (local uri)) as [error d]. simpl.
  split; [discriminate|]. split.
  - intros _ Hfail. apply Z.eqb_neq in Hfail. rewrite Hfail. reflexivity.
  - intros _ Hopen. subst error. simpl.
    destruct (buffer_malloc_ok E); simpl.
    2: { split; [reflexivity|]. eexists [_; _]. reflexivity. }
    destruct (EVP_MD_CTX_new_ok E); simpl.
    2: { split; [reflexivity|]. eexists [_; _]. reflexivity. }
    destruct (EVP_DigestInit_ex_ok E); simpl.
    2: { split; [reflexivity|]. eexists [_; _]. reflexivity. }
    rewrite hash_file_loop_fresh by reflexivity. simpl.
    destruct (read_error d =? 0); simpl.
    + destruct (EVP_DigestUpdate_ok E); simpl.
      * destruct (EVP_DigestFinal_ex_ok E); simpl.
        -- split; [reflexivity|]. eexists [_]. reflexivity.
        -- split; [reflexivity|]. eexists [_; _]. reflexivity.
      * split; [reflexivity|]. eexists [_; _]. reflexivity.
    + destruct (EVP_DigestUpdate_ok E
                || (List.length (contents d) <? Pos.to_nat (st_blksize d))%nat);
        simpl; (split; [reflexivity|]); eexists [_; _]; reflexivity.
Qed.

Lemma hash_file_closes_what_it_opens_witness :
  hash_file fort_log hash_env_ok "sha256" missing_uri =
    ((- 2, []), [EvFileOpen "repository/rpki.example/repo/b.roa"]) /\
  filter is_file_event
    (events (hash_file fort_log hash_env_update_fails "sha256" sample_uri)) =
    [EvFileOpen "repository/rpki.example/repo/a.roa";
     EvFileClose "repository/rpki.example/repo/a.roa"] /\
  filter is_file_event
    (events (hash_file fort_log hash_env_ok "md5" sample_uri)) = [].
Proof.
  destruct (hash_file_closes_what_it_opens fort_log hash_env_ok "sha256"
              missing_uri) as (_ & Hfail & _).
  destruct (hash_file_closes_what_it_opens fort_log hash_env_update_fails
              "sha256" sample_uri) as (_ & _ & Hopen).
  destruct (hash_file_closes_what_it_opens fort_log hash_env_ok "md5"
              sample_uri) as (Hnone & _).
  split; [|split].
  - apply Hfail; vm_compute; discriminate.
  - apply Hopen; [vm_compute; discriminate | reflexivity].
  - apply Hnone. reflexivity.
Defined.



(** The digest calls of [hash_buffer] all succeed. *)
Lemma hash_buffer_result L E algorithm content :
  log_api_fails L ->
  match EVP_get_digestbyname E algorithm with
  | None => fst (result (hash_buffer L E algorithm content)) <> 0
  | Some md =>
      if EVP_MD_CTX_new_ok E && EVP_DigestInit_ex_ok E
         && EVP_DigestUpdate_ok E && EVP_DigestFinal_ex_ok E then
        hash_buffer L E algorithm content = ((0, md_digest md content), [])
      else fst (result (hash_buffer L E algorithm content)) <> 0
  end.
Proof.
  intros (_ & _ & Hcrypto & Hnomem).
  unfold hash_buffer, get_md.
  destruct (EVP_get_digestbyname E algorithm) as [md|]; simpl;
    [|discriminate].
  destruct (EVP_MD_CTX_new_ok E); simpl; [|exact Hnomem].
  destruct (EVP_DigestInit_ex_ok E), (EVP_DigestUpdate_ok E),
    (EVP_DigestFinal_ex_ok E); simpl; try exact Hcrypto.
  reflexivity.
Qed.

(** X13. [hash_validate_octet_string] returns 0 exactly when the algorithm
    is known, the digest context is allocated, the three digest calls
    succeed and the digest of the data equals the expected octets (same
    length, same bytes). A digest that differs gives exactly [-EINVAL],
    without any message. *)
Theorem hash_validate_octet_string_accepts_iff :
  forall L E algorithm expected data,
    log_api_fails L ->
    (result (hash_validate_octet_string L E algorithm expected data) = 0 <->
     exists md,
       EVP_get_digestbyname E algorithm = Some md /\
       EVP_MD_CTX_new_ok E = true /\ EVP_DigestInit_ex_ok E = true /\
       EVP_DigestUpdate_ok E = true /\ EVP_DigestFinal_ex_ok E = true /\
       octets expected = md_digest md (octets data)) /\
    (forall md,
       EVP_get_digestbyname E algorithm = Some md ->
       EVP_MD_CTX_new_ok E = true -> EVP_DigestInit_ex_ok E = true ->
       EVP_DigestUpdate_ok E = true -> EVP_DigestFinal_ex_ok E = true ->
       octets expected <> md_digest md (octets data) ->
       hash_validate_octet_string L E algorithm expected data =
         (- EINVAL, [])).
Proof.
  intros L E algorithm expected data HL.
  pose proof (hash_buffer_result L E algorithm (octets data) HL) as Hbuf.
  unfold hash_validate_octet_string, hash_validate.
  destruct (EVP_get_digestbyname E algorithm) as [md|].
  2: { unfold result in *. unfold bind.
       destruct (hash_buffer L E algorithm (octets data))
         as [[error actual] t]. simpl in *.
       apply Z.eqb_neq in Hbuf. rewrite Hbuf. simpl. split.
       - split.
         + intros H. apply Z.eqb_neq in Hbuf. contradiction.
         + intros (md & Hmd & _). discriminate.
       - intros md Hmd. discriminate. }
  destruct (EVP_MD_CTX_new_ok E), (EVP_DigestInit_ex_ok E),
    (EVP_DigestUpdate_ok E), (EVP_DigestFinal_ex_ok E); simpl in Hbuf.
  1: { rewrite Hbuf. unfold bind, result. simpl.
       destruct (hash_matches (octets expected) _ _ _) eqn:Hmatch.
       - apply hash_matches_eq in Hmatch. split.
         + split; [|reflexivity]. intros _. exists md. repeat split.
           exact Hmatch.
         + intros md' Hmd' _ _ _ _ Hne. congruence.
       - split.
         + split; [discriminate|].
           intros (md' & Hmd' & _ & _ & _ & _ & Heq).
           injection Hmd' as Hmd'. subst md'.
           apply hash_matches_eq in Heq. congruence.
         + intros _ _ _ _ _ _ _. reflexivity. }
  all: unfold result in *; unfold bind;
    destruct (hash_buffer L E algorithm (octets data)) as [[error actual] t];
    simpl in *; apply Z.eqb_neq in Hbuf; rewrite Hbuf; simpl;
    apply Z.eqb_neq in Hbuf;
    (split;
     [split;
      [intros H; contradiction
      | intros (md' & _ & H1 & H2 & H3 & H4 & _); discriminate]
     | intros md' _ H1 H2 H3 H4; discriminate]).
Qed.

Lemma hash_validate_octet_string_accepts_iff_witness :
  result (hash_validate_octet_string fort_log hash_env_ok "sha256"
            {| octets := [x05; x04] |}
            {| octets := [x01; x02; x03; x04; x05] |}) = 0 /\
  hash_validate_octet_string fort_log hash_env_ok "sha256"
    {| octets := [x05] |} {| octets := [x01; x02; x03; x04; x05] |} =
    (- EINVAL, []).
Proof.
  split.
  - apply (proj1 (hash_validate_octet_string_accepts_iff fort_log hash_env_ok
                    "sha256" {| octets := [x05; x04] |}
                    {| octets := [x01; x02; x03; x04; x05] |}
                    fort_log_fails)).
    exists toy_md. repeat split.
  - apply (proj2 (hash_validate_octet_string_accepts_iff fort_log hash_env_ok
                    "sha256" {| octets := [x05] |}
                    {| octets := [x01; x02; x03; x04; x05] |}
                    fort_log_fails) toy_md); try reflexivity.
    vm_compute. discriminate.
Defined.



(** X15. A read error ends [hash_validate_file] with the value that
    [ferror] reported: when the file opens and the digest is set up and
    updated without failure, but the medium fails before the end of the
    file, the function logs that value through [pr_errno], closes the file
    and returns the value, without comparing any digest. *)
Theorem hash_validate_file_read_error :
  forall L E algorithm uri expected md,
    bits_unused expected = 0 ->
    EVP_get_digestbyname E algorithm = Some md ->
    fst (file_open_ret E (local uri)) = 0 ->
    buffer_malloc_ok E = true -> EVP_MD_CTX_new_ok E = true ->
    EVP_DigestInit_ex_ok E = true -> EVP_DigestUpdate_ok E = true ->
    read_error (snd (file_open_ret E (local uri))) <> 0 ->
    hash_validate_file L E algorithm uri expected =
      (read_error (snd (file_open_ret E (local uri))),
       [EvFileOpen (local uri);
        EvLog PR_ERRNO "File reading error. Error message (apparently)"
          [ArgInt (read_error (snd (file_open_ret E (local uri))))];
        EvFileClose (local uri)]).
Proof.
  intros L E algorithm uri expected md Hbits Hmd Hopen Hmalloc Hctx Hinit
    Hupdate Hread.
  unfold hash_validate_file, hash_file, get_md, file_open.
  apply Z.eqb_eq in Hbits. rewrite Hbits, Hmd. simpl.
  destruct (file_open_ret E (local uri)) as [error d]. simpl in *.
  subst error. simpl. rewrite Hmalloc, Hctx, Hinit. simpl.
  rewrite hash_file_loop_fresh by reflexivity. simpl.
  rewrite Hupdate. apply Z.eqb_neq in Hread. rewrite Hread. simpl.
  rewrite Hread. reflexivity.
Qed.

Lemma hash_validate_file_read_error_witness :
  hash_validate_file fort_log hash_env_damaged "sha256" sample_uri
    expected_hash =
  (5, [EvFileOpen "repository/rpki.example/repo/a.roa";
       EvLog PR_ERRNO "File reading error. Error message (apparently)"
         [ArgInt 5];
       EvFileClose "repository/rpki.example/repo/a.roa"]).
Proof.
  apply (hash_validate_file_read_error fort_log hash_env_damaged "sha256"
           sample_uri expected_hash toy_md); try reflexivity.
  vm_compute. discriminate.
Defined.

(** X16. An algorithm name that libcrypto does not know is rejected
    before anything else is done: [hash_validate_file] (given a
    whole-byte expected hash) and [hash_validate_octet_string] print
    "Unknown message digest" with the name and return [-EINVAL]; no file
    is opened and nothing is logged. *)
Theorem unknown_digest_is_rejected :
  forall L E algorithm uri expected_bits expected data,
    EVP_get_digestbyname E algorithm = None ->
    (bits_unused expected_bits = 0 ->
     hash_validate_file L E algorithm uri expected_bits =
       (- EINVAL, [EvPrintf "Unknown message digest %s\n"
                     [ArgStr algorithm]])) /\
    hash_validate_octet_string L E algorithm expected data =
      (- EINVAL, [EvPrintf "Unknown message digest %s\n"
                    [ArgStr algorithm]]).
Proof.
  intros L E algorithm uri expected_bits expected data Hmd. split.
  - intros Hbits. unfold hash_validate_file, hash_file, get_md.
    apply Z.eqb_eq in Hbits. rewrite Hbits, Hmd. reflexivity.
  - unfold hash_validate_octet_string, hash_validate, hash_buffer, get_md.
    rewrite Hmd. reflexivity.
Qed.

Lemma unknown_digest_is_rejected_witness :
  hash_validate_file fort_log hash_env_ok "md5" sample_uri expected_hash =
    (- EINVAL, [EvPrintf "Unknown message digest %s\n" [ArgStr "md5"]]).
Proof.
  apply (proj1 (unknown_digest_is_rejected fort_log hash_env_ok "md5"
                  sample_uri expected_hash {| octets := [] |}
                  {| octets := [] |} eq_refl)).
  reflexivity.
Defined.

(* ===================================================================== *)
(** * Further properties of notify.c                                      *)
(* ===================================================================== *)

Lemma notified_serial_notify E serial c :
  filter is_serial_notify (notified E serial c) =
  [EvSerialNotify (fd c) (rtr_version c) serial].
Proof.
  unfold notified. simpl.
  destruct (send_serial_notify_pdu_ret E (fd c) (rtr_version c) serial =? 0);
    reflexivity.
Qed.

Lemma notified_warning E serial c :
  filter (is_log PR_WARN) (notified E serial c) =
  if send_fails E serial c then
    [EvLog PR_WARN "Error code %d sending notify PDU to client."
       [ArgInt (send_serial_notify_pdu_ret E (fd c) (rtr_version c) serial)]]
  else [].
Proof.
  unfold notified, send_fails. simpl.
  destruct (send_serial_notify_pdu_ret E (fd c) (rtr_version c) serial =? 0);
    reflexivity.
Qed.

Lemma broadcast_filters E serial table :
  filter is_serial_notify (flat_map (notified E serial) table) =
    map (fun c => EvSerialNotify (fd c) (rtr_version c) serial) table /\
  filter (is_log PR_WARN) (flat_map (notified E serial) table) =
    map (fun c =>
           EvLog PR_WARN "Error code %d sending notify PDU to client."
             [ArgInt (send_serial_notify_pdu_ret E (fd c) (rtr_version c)
                        serial)])
        (filter (send_fails E serial) table).
Proof.
  induction table as [|c rest [IHp IHw]]; cbn [flat_map filter map].
  - split; reflexivity.
  - rewrite !filter_app, notified_serial_notify, notified_warning.
    rewrite IHp, IHw. split; [reflexivity|].
    destruct (send_fails E serial c); reflexivity.
Qed.

(** X17. When the serial is read, the broadcast sends exactly one Serial
    Notify PDU per registered client, in registry order (a client that is
    registered twice is notified twice), each with the descriptor and
    protocol version of its client and the serial read; and it logs
    exactly one warning per failed send, in the same order, with the error
    code of that send. *)
Theorem notify_clients_one_pdu_per_client :
  forall E serial,
    get_last_serial_number_ret E = (0, serial) ->
    filter is_serial_notify (events (notify_clients E)) =
      map (fun c => EvSerialNotify (fd c) (rtr_version c) serial)
          (clients E) /\
    filter (is_log PR_WARN) (events (notify_clients E)) =
      map (fun c =>
             EvLog PR_WARN "Error code %d sending notify PDU to client."
               [ArgInt (send_serial_notify_pdu_ret E (fd c) (rtr_version c)
                          serial)])
          (filter (send_fails E serial) (clients E)).
Proof.
  intros E serial Hserial.
  unfold notify_clients, get_last_serial_number. rewrite Hserial.
  io_unfold. simpl. rewrite clients_foreach_send_notify.
  cbn [snd app filter is_serial_notify is_log].
  apply broadcast_filters.
Qed.

Lemma notify_clients_one_pdu_per_client_witness :
  filter is_serial_notify (events (notify_clients notify_env_ok)) =
    [EvSerialNotify 7 1 42%N; EvSerialNotify 9 0 42%N] /\
  filter (is_log PR_WARN) (events (notify_clients notify_env_ok)) =
    [EvLog PR_WARN "Error code %d sending notify PDU to client."
       [ArgInt 32]].
Proof.
  exact (notify_clients_one_pdu_per_client notify_env_ok 42%N eq_refl).
Defined.

(* ===================================================================== *)
(** * Properties of test/impersonator.c                                   *)
(* ===================================================================== *)

Lemma inet_ntop_some text dst size bufs p bufs' :
  inet_ntop text dst size bufs = (Some p, bufs') ->
  p = dst /\ exists t, text = Some t /\ bufs' = write_addr dst t bufs.
Proof.
  unfold inet_ntop. destruct text as [t|]; [|discriminate].
  destruct (String.length t <? size)%nat; [|discriminate].
  intros H. injection H as Hp Hb. split; [congruence|].
  exists t. split; congruence.
Qed.

Lemma addr2str_some E second addr bufs p bufs' :
  addr2str E second addr bufs = (Some p, bufs') ->
  p = (if second then AddrBuffer2 else AddrBuffer1) /\
  exists t, addr_text E addr = Some t /\ bufs' = write_addr p t bufs.
Proof.
  unfold addr2str, v4addr2str, v4addr2str2, v6addr2str, v6addr2str2.
  destruct addr as [a|a], second; intros H;
    apply inet_ntop_some in H; destruct H as (Hp & t & Ht & Hb);
    subst p; (split; [reflexivity|]); exists t; split; assumption.
Qed.

(** X18. The plain converters and their "2" variants write to different
    static buffers, so one result of each kind can be used at the same
    time: after a successful call of [v4addr2str] or [v6addr2str] and a
    successful call of [v4addr2str2] or [v6addr2str2], in either order,
    each returned pointer reads the text of its own address. *)
Theorem addr2str_variants_do_not_interfere :
  forall E first a b bufs p1 bufs1 p2 bufs2,
    addr2str E first a bufs = (Some p1, bufs1) ->
    addr2str E (negb first) b bufs1 = (Some p2, bufs2) ->
    addr_text E a = Some (read_addr p1 bufs2) /\
    addr_text E b = Some (read_addr p2 bufs2).
Proof.
  intros E first a b bufs p1 bufs1 p2 bufs2 H1 H2.
  apply addr2str_some in H1. destruct H1 as (Hp1 & ta & Hta & Hb1).
  apply addr2str_some in H2. destruct H2 as (Hp2 & tb & Htb & Hb2).
  rewrite Hta, Htb. subst bufs2 bufs1 p1 p2.
  destruct first; split; reflexivity.
Qed.

Lemma addr2str_variants_do_not_interfere_witness :
  Some "192.168.1.1"%string =
    Some (read_addr AddrBuffer1
            (snd (v6addr2str2 sample_inet 1%N
                    (snd (v4addr2str sample_inet 3232235777%N
                            empty_buffers))))) /\
  Some "::1"%string =
    Some (read_addr AddrBuffer2
            (snd (v6addr2str2 sample_inet 1%N
                    (snd (v4addr2str sample_inet 3232235777%N
                            empty_buffers))))).
Proof.
  exact (addr2str_variants_do_not_interfere sample_inet false
           (inl 3232235777%N) (inr 1%N) empty_buffers
           AddrBuffer1 _ AddrBuffer2 _ eq_refl eq_refl).
Defined.

(** X19. Two converters of the same kind share one static buffer, also
    across address families ([v4addr2str] and [v6addr2str], or
    [v4addr2str2] and [v6addr2str2]): after two successful calls both
    returned pointers are the same, they read the text of the second
    address, and the other buffer is as it was. *)
Theorem addr2str_same_buffer_overwritten :
  forall E second a b bufs p1 bufs1 p2 bufs2,
    addr2str E second a bufs = (Some p1, bufs1) ->
    addr2str E second b bufs1 = (Some p2, bufs2) ->
    p1 = p2 /\
    addr_text E b = Some (read_addr p1 bufs2) /\
    read_addr (if second then AddrBuffer1 else AddrBuffer2) bufs2 =
    read_addr (if second then AddrBuffer1 else AddrBuffer2) bufs.
Proof.
  intros E second a b bufs p1 bufs1 p2 bufs2 H1 H2.
  apply addr2str_some in H1. destruct H1 as (Hp1 & ta & Hta & Hb1).
  apply addr2str_some in H2. destruct H2 as (Hp2 & tb & Htb & Hb2).
  rewrite Htb. subst bufs2 bufs1 p1 p2.
  destruct second; repeat split; reflexivity.
Qed.

Lemma addr2str_same_buffer_overwritten_witness :
  Some "::1"%string =
    Some (read_addr AddrBuffer1
            (snd (v6addr2str sample_inet 1%N
                    (snd (v4addr2str sample_inet 3232235777%N
                            empty_buffers))))).
Proof.
  exact (proj1 (proj2 (addr2str_same_buffer_overwritten sample_inet false
                         (inl 3232235777%N) (inr 1%N) empty_buffers
                         AddrBuffer1 _ AddrBuffer1 _ eq_refl eq_refl))).
Defined.
